(** * MercuryCrawler: a shallow embedding of [mercury_crawler.py]

    The crawler reads a directory page, collects the addresses of the
    investor pages it links to, and scrapes one record per address.  The
    embedding below follows the Python source function by function:

    - Python [str] values are sequences of Unicode code points;
    - the parsed page (a BeautifulSoup tree) is a tree of tags and strings,
      and the navigation methods used by the crawler ([find_all],
      [find_next], [find_next_sibling], [parent], [get_text], [select_one])
      are functions over positions of that tree;
    - the [try]/[except] block of [scrape_investor_data] is a computation in
      a state-and-exception monad over the record being filled;
    - the main loop of [crawl_all_investors] threads its counters, the list
      of records and a log of the calls it makes. *)

From Stdlib Require Import String Ascii.
From Stdlib Require Import List Bool Arith NArith ZArith Lia.
From Stdlib Require Import Floats Uint63 DecimalString DecimalPos DecimalN.
Import ListNotations.

Set Warnings "-register-all,-abstract-large-number".

(* ================================================================== *)
(** ** Python strings *)

Module PyStr.

(** A character is a Unicode code point, a string a sequence of them. *)
Definition char := N.
Definition str := list char.

(** [lit "abc"] is the Python literal ['abc'] (ASCII literals only). *)
Definition lit (s : string) : str :=
  List.map N_of_ascii (list_ascii_of_string s).

Definition char_eqb (a b : char) : bool := N.eqb a b.

Fixpoint eqb (s t : str) : bool :=
  match s, t with
  | [], [] => true
  | a :: s', b :: t' => char_eqb a b && eqb s' t'
  | _, _ => false
  end.

(** [bool(s)]: a string is true when it is not empty. *)
Definition truthy (s : str) : bool :=
  match s with [] => false | _ :: _ => true end.

(** [a or b] on strings. *)
Definition or_else (a b : str) : str := if truthy a then a else b.

(** [s.startswith(p)] *)
Fixpoint startswith (p s : str) : bool :=
  match p, s with
  | [], _ => true
  | a :: p', b :: s' => char_eqb a b && startswith p' s'
  | _ :: _, [] => false
  end.

(** [sub in s] *)
Fixpoint contains (sub s : str) : bool :=
  startswith sub s ||
  match s with
  | [] => false
  | _ :: s' => contains sub s'
  end.

(** [x in xs] for a list of strings. *)
Definition mem (x : str) (xs : list str) : bool := existsb (eqb x) xs.

(** [s.replace(old, new)]: every occurrence, leftmost first, without
    overlap.  [skip] counts the characters of a matched occurrence that are
    still to be dropped. *)
Fixpoint replace_go (old new : str) (skip : nat) (s : str) : str :=
  match s with
  | [] => []
  | c :: t =>
      match skip with
      | S k => replace_go old new k t
      | O => if startswith old s
             then new ++ replace_go old new (length old - 1) t
             else c :: replace_go old new 0 t
      end
  end.

Definition replace (old new s : str) : str :=
  match old with
  | [] => new ++ flat_map (fun c => c :: new) s
  | _ :: _ => replace_go old new 0 s
  end.

(** [c.isspace()]: the code points Python treats as whitespace. *)
Definition isspace (c : char) : bool :=
  ((9 <=? c) && (c <=? 13) || (28 <=? c) && (c <=? 32) ||
   (c =? 133) || (c =? 160) || (c =? 5760) ||
   (8192 <=? c) && (c <=? 8202) || (c =? 8232) || (c =? 8233) ||
   (c =? 8239) || (c =? 8287) || (c =? 12288))%N.

Fixpoint lstrip (s : str) : str :=
  match s with
  | [] => []
  | c :: t => if isspace c then lstrip t else s
  end.

Definition rstrip (s : str) : str := rev (lstrip (rev s)).

(** [s.strip()] *)
Definition strip (s : str) : str := rstrip (lstrip s).

Definition is_upper_ascii (c : char) : bool := ((65 <=? c) && (c <=? 90))%N.
Definition is_lower_ascii (c : char) : bool := ((97 <=? c) && (c <=? 122))%N.

(** [s.lower()].  The ASCII capitals map to their small letters; of the
    other code points only U+0130 and U+212A have a lowercase form that
    contains an ASCII letter.  Every remaining cased code point maps to a
    code point outside ASCII and is left as it is: the crawler compares
    lowered text with ASCII literals only, which cannot tell the two
    apart. *)
Definition lower_char (c : char) : str :=
  if is_upper_ascii c then [(c + 32)%N]
  else if (c =? 304)%N then [105%N; 775%N]
  else if (c =? 8490)%N then [107%N]
  else [c].

Definition lower (s : str) : str := flat_map lower_char s.

(** [s.title()] on ASCII letters: a letter that follows a character that
    is not a letter is made a capital, every other letter is made small.
    Letters outside ASCII are left as they are and count as letters. *)
Definition is_cased (c : char) : bool :=
  is_upper_ascii c || is_lower_ascii c || (128 <=? c)%N.

Fixpoint title_go (prev_cased : bool) (s : str) : str :=
  match s with
  | [] => []
  | c :: t =>
      (if prev_cased
       then (if is_upper_ascii c then (c + 32)%N else c)
       else (if is_lower_ascii c then (c - 32)%N else c))
      :: title_go (is_cased c) t
  end.

Definition title (s : str) : str := title_go false s.

(** [s.split(sep)] for a one-character separator, and [re.split] on a
    character class: the pieces between the separators, empty pieces
    included, so that [n] separators give [n + 1] pieces. *)
Fixpoint split_on (sep : char -> bool) (s : str) : list str :=
  match s with
  | [] => [[]]
  | c :: t =>
      if sep c then [] :: split_on sep t
      else match split_on sep t with
           | [] => [[c]]
           | piece :: rest => (c :: piece) :: rest
           end
  end.

(** The words of [s]: the maximal runs of characters that are not
    whitespace. *)
Definition words (s : str) : list str :=
  filter truthy (split_on isspace s).

(** [sep.join(items)] *)
Fixpoint join (sep : str) (items : list str) : str :=
  match items with
  | [] => []
  | [x] => x
  | x :: rest => x ++ sep ++ join sep rest
  end.

(** A literal pattern searched with [re.I]: two characters match when
    they are the same ASCII letter in either case; Python also lets the
    pattern letters i, s and k match U+0130/U+0131, U+017F and U+212A. *)
Definition ci_char_eqb (p c : char) : bool :=
  let fold x := if is_upper_ascii x then (x + 32)%N else x in
  char_eqb (fold p) (fold c) ||
  (char_eqb (fold p) 105%N && (char_eqb c 304%N || char_eqb c 305%N)) ||
  (char_eqb (fold p) 115%N && char_eqb c 383%N) ||
  (char_eqb (fold p) 107%N && char_eqb c 8490%N).

Fixpoint ci_startswith (p s : str) : bool :=
  match p, s with
  | [], _ => true
  | a :: p', b :: s' => ci_char_eqb a b && ci_startswith p' s'
  | _ :: _, [] => false
  end.

(** [re.compile(p, re.I).search(s)] for a literal pattern [p]. *)
Fixpoint re_search_I (p s : str) : bool :=
  ci_startswith p s ||
  match s with
  | [] => false
  | _ :: s' => re_search_I p s'
  end.

End PyStr.
Import PyStr.

(* ================================================================== *)
(** ** The parsed page *)

Module Soup.

(** A node of the tree BeautifulSoup builds: a string or a tag with its
    attributes and contents.  The strings are the plain text of the page:
    comments, and the strings of [script], [style] and [template] elements,
    which the parser keeps in classes of their own and [get_text] leaves
    out, are not part of the pages modelled here. *)
Inductive Node : Type :=
| NavigableString (s : str)
| Tag (name : str) (attrs : list (str * str)) (contents : list Node).

(** The [BeautifulSoup] object is itself a tag, named [[document]], whose
    contents are the top-level nodes of the page. *)
Definition document (page : list Node) : Node :=
  Tag (lit "[document]") [] page.

(** A position: the child indices leading from the document to a node. *)
Definition Path := list nat.

Definition path_eqb (p q : Path) : bool :=
  if list_eq_dec Nat.eq_dec p q then true else false.

(** Document order: a node, then its contents from left to right. *)
Fixpoint walk (p : Path) (n : Node) : list (Path * Node) :=
  (p, n) ::
  match n with
  | NavigableString _ => []
  | Tag _ _ cs =>
      (fix children (i : nat) (cs : list Node) : list (Path * Node) :=
         match cs with
         | [] => []
         | c :: cs' => walk (p ++ [i]) c ++ children (S i) cs'
         end) 0 cs
  end.

(** [soup.descendants] *)
Definition descendants (page : list Node) : list (Path * Node) :=
  tl (walk [] (document page)).

(** What follows position [p] in a walk; the contents of the tag at [p]
    come first. *)
Fixpoint after (p : Path) (l : list (Path * Node)) : list (Path * Node) :=
  match l with
  | [] => []
  | e :: l' => if path_eqb (fst e) p then l' else after p l'
  end.

(** [tag.next_elements]: what follows the tag in document order.  The
    parser links every node it builds to the node built before it; the
    [BeautifulSoup] object is not built by the parser and is linked to
    nothing, so nothing follows it: a search forward from the object itself
    finds nothing. *)
Definition next_elements (page : list Node) (p : Path) : list (Path * Node) :=
  match p with
  | [] => []
  | _ :: _ => after p (walk [] (document page))
  end.

Definition contents (n : Node) : list Node :=
  match n with
  | NavigableString _ => []
  | Tag _ _ cs => cs
  end.

Fixpoint node_at (n : Node) (p : Path) : option Node :=
  match p with
  | [] => Some n
  | i :: p' =>
      match nth_error (contents n) i with
      | Some c => node_at c p'
      | None => None
      end
  end.

(** [tag.parent], as a position. *)
Definition parent (p : Path) : Path := removelast p.

(** [tag.next_siblings], with their positions. *)
Definition next_siblings (page : list Node) (p : Path) : list (Path * Node) :=
  match node_at (document page) (parent p) with
  | Some par =>
      let i := last p 0 in
      List.map (fun jc => (parent p ++ [fst jc], snd jc))
               (skipn (S i) (combine (seq 0 (length (contents par))) (contents par)))
  | None => []
  end.

Definition has_name (name : str) (n : Node) : bool :=
  match n with
  | NavigableString _ => false
  | Tag nm _ _ => PyStr.eqb nm name
  end.

(** [tag.get(key)] *)
Fixpoint lookup (key : str) (attrs : list (str * str)) : option str :=
  match attrs with
  | [] => None
  | (k, v) :: rest => if PyStr.eqb k key then Some v else lookup key rest
  end.

Definition attr (key : str) (n : Node) : option str :=
  match n with
  | NavigableString _ => None
  | Tag _ attrs _ => lookup key attrs
  end.

(** [tag.get(key, '')] and, where the attribute is known to be there,
    [tag[key]]. *)
Definition get (key : str) (n : Node) : str :=
  match attr key n with Some v => v | None => [] end.

Definition has_attr (key : str) (n : Node) : bool :=
  match attr key n with Some _ => true | None => false end.

(** The [class] attribute is a list of names; [class_='c'] holds of a tag
    that carries the name [c]. *)
Definition has_class (c : str) (n : Node) : bool :=
  match attr (lit "class") n with
  | Some v => mem c (words v)
  | None => false
  end.

(** The strings below a node, in document order. *)
Fixpoint strings (n : Node) : list str :=
  match n with
  | NavigableString s => [s]
  | Tag _ _ cs => flat_map strings cs
  end.

(** [tag.get_text()], on a page of plain strings. *)
Definition get_text (n : Node) : str := concat (strings n).

(** [tag.get_text(strip=True)]: every string stripped, the empty ones
    dropped. *)
Definition get_text_strip (n : Node) : str :=
  concat (filter truthy (List.map strip (strings n))).

(** [tag.string]: the single string of a tag, through single children. *)
Fixpoint string_of (n : Node) : option str :=
  match n with
  | NavigableString s => Some s
  | Tag _ _ [c] => string_of c
  | Tag _ _ _ => None
  end.

(** [soup.find_all(...)]: the descendants that satisfy [want]. *)
Definition find_all (want : Node -> bool) (page : list Node)
  : list (Path * Node) :=
  filter (fun e => want (snd e)) (descendants page).

(** [tag.find_all(...)] for the tag [n] at position [p]. *)
Definition find_all_in (want : Node -> bool) (p : Path) (n : Node)
  : list (Path * Node) :=
  filter (fun e => want (snd e)) (tl (walk p n)).

(** [tag.find_next(...)] *)
Definition find_next (want : Node -> bool) (page : list Node) (p : Path)
  : option (Path * Node) :=
  find (fun e => want (snd e)) (next_elements page p).

(** [tag.find_next_sibling(...)] *)
Definition find_next_sibling (want : Node -> bool) (page : list Node)
           (p : Path) : option (Path * Node) :=
  find (fun e => want (snd e)) (next_siblings page p).

(** The selectors the crawler passes to [select_one]. *)
Inductive Selector : Type :=
| SelName (name : str)            (* h1 *)
| SelAttr (key value : str)       (* [data-cy="investor-name"] *)
| SelClass (c : str).             (* .name *)

Definition selects (sel : Selector) (n : Node) : bool :=
  match sel, n with
  | _, NavigableString _ => false
  | SelName name, _ => has_name name n
  | SelAttr k v, _ =>
      match attr k n with Some v' => PyStr.eqb v' v | None => false end
  | SelClass c, _ => has_class c n
  end.

(** [soup.select_one(selector)] *)
Definition select_one (sel : Selector) (page : list Node)
  : option (Path * Node) :=
  find (fun e => selects sel (snd e)) (descendants page).

End Soup.
Import Soup.

(* ================================================================== *)
(** ** Field locators and field parsers *)

(** [self.base_url] *)
Definition base_url : str := lit "https://mercury.com".

(** The section headings of an investor page:
    [soup.find_all('h3', class_='arcadia-heading-9')]. *)
Definition is_heading (n : Node) : bool :=
  has_name (lit "h3") n && has_class (lit "arcadia-heading-9") n.

(** [soup.find_all('a', href=True)] *)
Definition is_link (n : Node) : bool :=
  has_name (lit "a") n && has_attr (lit "href") n.

(** The character class [[,;•·\n]] of [_parse_list_field]. *)
Definition is_list_delimiter (c : char) : bool :=
  existsb (char_eqb c) [44; 59; 8226; 183; 10]%N.

(** One turn of the cleaning loop of [_parse_list_field]. *)
Definition keep_cleaned (cleaned_items : list str) (item : str) : list str :=
  let cleaned := strip item in
  if truthy cleaned && (1 <? length cleaned)
  then cleaned_items ++ [cleaned]
  else cleaned_items.

Definition _parse_list_field (text : str) : list str :=
  if negb (truthy text) then []
  else
    let items := split_on is_list_delimiter text in
    fold_left keep_cleaned items [].

(** [_extract_text], for selectors without [:contains(]. *)
Fixpoint _extract_text (soup : list Node) (selectors : list Selector) : str :=
  match selectors with
  | [] => []
  | selector :: rest =>
      match select_one selector soup with
      | Some element => get_text_strip (snd element)
      | None => _extract_text soup rest
      end
  end.

(** [soup.find_all(text=re.compile(content, re.I))] *)
Definition is_text_matching (content : str) (n : Node) : bool :=
  match n with
  | NavigableString s => re_search_I content s
  | Tag _ _ _ => false
  end.

Definition _extract_text_by_content (soup : list Node) (content : str) : str :=
  let elements := find_all (is_text_matching content) soup in
  match elements with
  | first :: _ =>
      match node_at (document soup) (parent (fst first)) with
      | Some par => get_text_strip par
      | None => []
      end
  | [] => []
  end.

Definition _get_name_from_url (url : str) : str :=
  let name_part := last (split_on (char_eqb 47%N) url) [] in
  title (replace (lit "-") (lit " ") name_part).

(** The loop of [_extract_structured_field] over the headings. *)
Fixpoint structured_field_loop (soup : list Node) (field_name : str)
         (headings : list (Path * Node)) : str :=
  match headings with
  | [] => []
  | h3 :: rest =>
      if PyStr.eqb (lower (strip (get_text (snd h3)))) (lower field_name) then
        match find_next_sibling (has_name (lit "p")) soup (fst h3) with
        | Some next_p => get_text_strip (snd next_p)
        | None =>
            match find_next (has_name (lit "p")) soup (parent (fst h3)) with
            | Some next_p => get_text_strip (snd next_p)
            | None => structured_field_loop soup field_name rest
            end
        end
      else structured_field_loop soup field_name rest
  end.

Definition _extract_structured_field (soup : list Node) (field_name : str) : str :=
  structured_field_loop soup field_name (find_all is_heading soup).

(** One turn of the inner loop of [_extract_industries]. *)
Definition add_industry (industries : list str) (link : Node) : list str :=
  if contains (lit "industries=") (get (lit "href") link) then
    let industry_text := get_text_strip link in
    if truthy industry_text && negb (mem industry_text industries)
    then industries ++ [industry_text]
    else industries
  else industries.

(** The loop of [_extract_industries] over the headings; it stops at the
    first heading whose text is [industries]. *)
Fixpoint industries_loop (soup : list Node) (headings : list (Path * Node))
  : list str :=
  match headings with
  | [] => []
  | h3 :: rest =>
      if PyStr.eqb (lower (strip (get_text (snd h3)))) (lit "industries") then
        match find_next (has_name (lit "div")) soup (fst h3) with
        | Some next_div =>
            let industry_links :=
              find_all_in is_link (fst next_div) (snd next_div) in
            fold_left add_industry (List.map snd industry_links) []
        | None => []
        end
      else industries_loop soup rest
  end.

Definition _extract_industries (soup : list Node) : list str :=
  industries_loop soup (find_all is_heading soup).

(** [d[key] = value] on a dictionary that remembers insertion order. *)
Fixpoint dict_set (key value : str) (d : list (str * str)) : list (str * str) :=
  match d with
  | [] => [(key, value)]
  | (k, v) :: rest =>
      if PyStr.eqb k key then (k, value) :: rest
      else (k, v) :: dict_set key value rest
  end.

(** One turn of the inner loop of [_extract_contact_info]. *)
Definition add_contact_info (contact_info : list (str * str)) (link : Node)
  : list (str * str) :=
  let href := get (lit "href") link in
  let text := get_text_strip link in
  if negb (truthy text) || (length (strip text) <? 2) then contact_info
  else
    let key := strip text in
    if contains (lit "mailto:") href
    then dict_set key (replace (lit "mailto:") [] href) contact_info
    else dict_set key href contact_info.

Fixpoint contact_info_loop (soup : list Node) (headings : list (Path * Node))
  : list (str * str) :=
  match headings with
  | [] => []
  | h3 :: rest =>
      if contains (lit "contact links") (lower (strip (get_text (snd h3)))) then
        match find_next (has_name (lit "div")) soup (fst h3) with
        | Some next_div =>
            let contact_links :=
              find_all_in is_link (fst next_div) (snd next_div) in
            fold_left add_contact_info (List.map snd contact_links) []
        | None => []
        end
      else contact_info_loop soup rest
  end.

Definition _extract_contact_info (soup : list Node) : list (str * str) :=
  contact_info_loop soup (find_all is_heading soup).

(* ================================================================== *)
(** ** The investor record *)

(** [investor_data["contacts"]] *)
Record Contacts : Type := mkContacts {
  email : str;
  linkedin : str;
  twitter : str;
  website : str
}.

(** The dictionary [investor_data].  The key ["error"] exists only once the
    handler has stored a message under it. *)
Record InvestorRecord : Type := mkRecord {
  url : str;
  name : str;
  industries : list str;
  stages : list str;
  check_range : str;
  bio : str;
  geography : list str;
  contacts : Contacts;
  contact_info : list (str * str);
  scraped_date : str;
  status : str;
  error : option str
}.

Definition no_contacts : Contacts := mkContacts [] [] [] [].

(** The record as [scrape_investor_data] creates it. *)
Definition new_record (address now : str) : InvestorRecord :=
  mkRecord address [] [] [] [] [] [] no_contacts [] now (lit "pending") None.

(** Assignments [investor_data[key] = value]. *)
Definition set_name (v : str) (r : InvestorRecord) : InvestorRecord :=
  mkRecord (url r) v (industries r) (stages r) (check_range r) (bio r)
           (geography r) (contacts r) (contact_info r) (scraped_date r)
           (status r) (error r).

Definition set_industries (v : list str) (r : InvestorRecord) : InvestorRecord :=
  mkRecord (url r) (name r) v (stages r) (check_range r) (bio r)
           (geography r) (contacts r) (contact_info r) (scraped_date r)
           (status r) (error r).

Definition set_stages (v : list str) (r : InvestorRecord) : InvestorRecord :=
  mkRecord (url r) (name r) (industries r) v (check_range r) (bio r)
           (geography r) (contacts r) (contact_info r) (scraped_date r)
           (status r) (error r).

Definition set_check_range (v : str) (r : InvestorRecord) : InvestorRecord :=
  mkRecord (url r) (name r) (industries r) (stages r) v (bio r)
           (geography r) (contacts r) (contact_info r) (scraped_date r)
           (status r) (error r).

Definition set_bio (v : str) (r : InvestorRecord) : InvestorRecord :=
  mkRecord (url r) (name r) (industries r) (stages r) (check_range r) v
           (geography r) (contacts r) (contact_info r) (scraped_date r)
           (status r) (error r).

Definition set_geography (v : list str) (r : InvestorRecord) : InvestorRecord :=
  mkRecord (url r) (name r) (industries r) (stages r) (check_range r) (bio r)
           v (contacts r) (contact_info r) (scraped_date r)
           (status r) (error r).

Definition set_contacts (v : Contacts) (r : InvestorRecord) : InvestorRecord :=
  mkRecord (url r) (name r) (industries r) (stages r) (check_range r) (bio r)
           (geography r) v (contact_info r) (scraped_date r)
           (status r) (error r).

Definition set_contact_info (v : list (str * str)) (r : InvestorRecord)
  : InvestorRecord :=
  mkRecord (url r) (name r) (industries r) (stages r) (check_range r) (bio r)
           (geography r) (contacts r) v (scraped_date r)
           (status r) (error r).

Definition set_status (v : str) (r : InvestorRecord) : InvestorRecord :=
  mkRecord (url r) (name r) (industries r) (stages r) (check_range r) (bio r)
           (geography r) (contacts r) (contact_info r) (scraped_date r)
           v (error r).

Definition set_error (v : str) (r : InvestorRecord) : InvestorRecord :=
  mkRecord (url r) (name r) (industries r) (stages r) (check_range r) (bio r)
           (geography r) (contacts r) (contact_info r) (scraped_date r)
           (status r) (Some v).

(* ================================================================== *)
(** ** The [try] block: state and exceptions *)

(** A computation inside the [try] block of [scrape_investor_data] reads
    and updates the record, and either returns a value or raises an
    exception, of which the handler only uses the message [str(e)].  The
    record reached when the exception is raised is the one the handler
    sees. *)
Definition Try (A : Type) : Type :=
  InvestorRecord -> (str + A) * InvestorRecord.

Definition ret {A : Type} (a : A) : Try A := fun r => (inr a, r).

Definition raise {A : Type} (message : str) : Try A := fun r => (inl message, r).

Definition bind {A B : Type} (m : Try A) (k : A -> Try B) : Try B :=
  fun r =>
    match m r with
    | (inr a, r') => k a r'
    | (inl message, r') => (inl message, r')
    end.

Definition assign (set : InvestorRecord -> InvestorRecord) : Try unit :=
  fun r => (inr tt, set r).

Notation "m ;; k" := (bind m (fun _ => k))
  (at level 61, right associativity).

(** The statements of the [try] block, in the order they run: the page is
    loaded and parsed, the fields are filled one after the other, and the
    outcome is reported once the status has been set. *)
Inductive Step : Type :=
| LoadPage | Name | Industries | Stages | CheckRange | Geography | Bio
| ContactLinks | ContactInfo | Report.

Definition step_index (s : Step) : nat :=
  match s with
  | LoadPage => 0 | Name => 1 | Industries => 2 | Stages => 3
  | CheckRange => 4 | Geography => 5 | Bio => 6 | ContactLinks => 7
  | ContactInfo => 8 | Report => 9
  end.

(** What one call of [scrape_investor_data] meets outside the program: the
    clock, the page the browser renders, and the exception, if any, that a
    call into the browser or the parser raises, with the statement it is
    raised in. *)
Record Visit : Type := mkVisit {
  now : str;
  page_source : list Node;
  fault : option (Step * str)
}.

(** Statement [s] is reached: it raises if the visit says so. *)
Definition reach (v : Visit) (s : Step) : Try unit :=
  match fault v with
  | Some (s', message) =>
      if step_index s =? step_index s' then raise message else ret tt
  | None => ret tt
  end.

(** The candidate text for the bio: the structured field, or the text after
    the first [h3] whose string matches [bio]. *)
Definition is_bio_heading (n : Node) : bool :=
  has_name (lit "h3") n &&
  match string_of n with
  | Some s => re_search_I (lit "bio") s
  | None => false
  end.

Definition is_p_or_div (n : Node) : bool :=
  has_name (lit "p") n || has_name (lit "div") n.

Definition bio_candidate (soup : list Node) : str :=
  let bio_content := _extract_structured_field soup (lit "Bio") in
  if negb (truthy bio_content) then
    match find_all is_bio_heading soup with
    | bio_heading :: _ =>
        match find_next is_p_or_div soup (fst bio_heading) with
        | Some next_element => get_text_strip (snd next_element)
        | None => bio_content
        end
    | [] => bio_content
    end
  else bio_content.

(** One turn of the loop over the links of the page that fills
    [personal_contacts]. *)
Definition is_mercury_link (href : str) : bool :=
  existsb (fun mercury_term => contains mercury_term href)
          [lit "mercuryhq"; lit "mercury.com"; lit "app.mercury"].

Definition classify_link (personal_contacts : Contacts) (link : Node) : Contacts :=
  let href := get (lit "href") link in
  let link_text := lower (get_text link) in
  if is_mercury_link href then personal_contacts
  else if contains (lit "mailto:") href then
    mkContacts (replace (lit "mailto:") [] href) (linkedin personal_contacts)
               (twitter personal_contacts) (website personal_contacts)
  else if contains (lit "linkedin.com/in/") href then
    mkContacts (email personal_contacts) href
               (twitter personal_contacts) (website personal_contacts)
  else if (contains (lit "twitter.com") href || contains (lit "x.com") href)
          && negb (contains (lit "/mercury") href) then
    mkContacts (email personal_contacts) (linkedin personal_contacts)
               href (website personal_contacts)
  else if startswith (lit "http") href && negb (contains base_url href) then
    if existsb (fun personal_indicator => contains personal_indicator link_text)
               [lit "website"; lit "blog"; lit "personal"]
    then mkContacts (email personal_contacts) (linkedin personal_contacts)
                    (twitter personal_contacts) href
    else personal_contacts
  else personal_contacts.

Definition personal_contacts_of (soup : list Node) : Contacts :=
  let links := find_all is_link soup in
  fold_left classify_link (List.map snd links) no_contacts.

(** The fallback chain of the name: the first result that is not empty. *)
Definition name_chain (soup : list Node) (address : str) : str :=
  or_else (_extract_text soup [SelName (lit "h1")])
  (or_else (_extract_text soup [SelAttr (lit "data-cy") (lit "investor-name");
                                SelClass (lit "name")])
  (or_else (_extract_text_by_content soup (lit "investor"))
           (_get_name_from_url address))).

(** The body of the [try] block. *)
Definition try_block (v : Visit) (address : str) : Try unit :=
  reach v LoadPage ;;
  let soup := page_source v in
  reach v Name ;;
  assign (set_name (name_chain soup address)) ;;
  reach v Industries ;;
  assign (set_industries (_extract_industries soup)) ;;
  reach v Stages ;;
  (let stages_content := _extract_structured_field soup (lit "Stages") in
   if truthy stages_content
   then assign (set_stages (_parse_list_field stages_content))
   else ret tt) ;;
  reach v CheckRange ;;
  (let check_range_content := _extract_structured_field soup (lit "Check Range") in
   if truthy check_range_content
   then assign (set_check_range (strip check_range_content))
   else ret tt) ;;
  reach v Geography ;;
  (let geography_content := _extract_structured_field soup (lit "Geography") in
   if truthy geography_content
   then assign (set_geography (_parse_list_field geography_content))
   else ret tt) ;;
  reach v Bio ;;
  (let bio_content := bio_candidate soup in
   if truthy bio_content && (50 <? length bio_content)
   then assign (set_bio bio_content)
   else ret tt) ;;
  reach v ContactLinks ;;
  assign (set_contacts (personal_contacts_of soup)) ;;
  reach v ContactInfo ;;
  assign (set_contact_info (_extract_contact_info soup)) ;;
  assign (set_status (lit "success")) ;;
  reach v Report.

(** [scrape_investor_data]: the record is created, the [try] block runs on
    it, and the handler marks the record it finds. *)
Definition scrape_investor_data (v : Visit) (address : str) : InvestorRecord :=
  let investor_data := new_record address (now v) in
  match try_block v address investor_data with
  | (inr _, investor_data') => investor_data'
  | (inl message, investor_data') =>
      set_error message (set_status (lit "error") investor_data')
  end.

(* ================================================================== *)
(** ** The URL collector *)

Section Collector.

(** [urllib.parse.urljoin], which is not part of the crawler. *)
Variable urljoin : str -> str -> str.

(** One turn of the loop of [collect_investor_urls]. *)
Definition collect_link (investor_urls : list str) (link : Node) : list str :=
  let href := get (lit "href") link in
  if contains (lit "/investor-database/") href
     && negb (PyStr.eqb href (lit "/investor-database")) then
    let full_url :=
      if startswith (lit "/") href then urljoin base_url href else href in
    if negb (mem full_url investor_urls)
    then investor_urls ++ [full_url]
    else investor_urls
  else investor_urls.

(** [collect_investor_urls].  The directory page either fails to load
    within the wait, with the message of the exception, or is rendered. *)
Definition collect_investor_urls (directory : str + list Node) : list str :=
  match directory with
  | inl _ => []
  | inr soup =>
      let links := find_all is_link soup in
      fold_left collect_link (List.map snd links) []
  end.

End Collector.

(* ================================================================== *)
(** ** The crawl driver *)

(** [format(x, '.1f')] of a float: the exact binary value, rounded to one
    decimal with ties to even. *)
Definition digits (n : Z) : str :=
  lit (NilZero.string_of_uint (N.to_uint (Z.to_N n))).

Definition round_half_even (num den : Z) : Z :=
  let q := (num / den)%Z in
  let r := (num mod den)%Z in
  if (den <? 2 * r)%Z then (q + 1)%Z
  else if (2 * r =? den)%Z then (if Z.even q then q else (q + 1)%Z)
  else q.

Definition format_1f (x : float) : str :=
  match Prim2SF x with
  | S754_zero sign => (if sign then lit "-" else []) ++ lit "0.0"
  | S754_infinity sign => (if sign then lit "-" else []) ++ lit "inf"
  | S754_nan => lit "nan"
  | S754_finite sign m e =>
      let tenths :=
        if (0 <=? e)%Z then (Z.pos m * 10 * 2 ^ e)%Z
        else round_half_even (Z.pos m * 10) (2 ^ (- e)) in
      (if sign then lit "-" else [])
      ++ digits (tenths / 10) ++ lit "." ++ digits (tenths mod 10)
  end.

(** An [int] as a float; exact for the counts of a crawl (below 2^53). *)
Definition float_of_nat (n : nat) : float :=
  PrimFloat.of_uint63 (Uint63.of_Z (Z.of_nat n)).

(** [a / b] on counts: a float, or [ZeroDivisionError]. *)
Definition truediv (a b : nat) : str + float :=
  if b =? 0 then inl (lit "division by zero")
  else inr (PrimFloat.div (float_of_nat a) (float_of_nat b)).

(** [f"{(successful_scrapes/len(investor_urls)*100):.1f}%"] *)
Definition success_rate_of (successful_scrapes total : nat) : str + str :=
  match truediv successful_scrapes total with
  | inl message => inl message
  | inr ratio =>
      inr (format_1f (PrimFloat.mul ratio (float_of_nat 100)) ++ lit "%")
  end.

(** ["metadata"] of the result. *)
Record Metadata : Type := mkMetadata {
  metadata_scraped_date : str;
  completion_date : str;
  total_investors : nat;
  successful_scrapes : nat;
  failed_scrapes : nat;
  success_rate : str
}.

(** What [crawl_all_investors] returns: [{"error": ...}] or
    [{"metadata": ..., "investors": ...}]. *)
Inductive CrawlResult : Type :=
| NoUrls (error_message : str)
| Crawled (metadata : Metadata) (investors : list InvestorRecord).

(** The calls the driver makes, in order. *)
Inductive Event : Type :=
| Scraped (address : str)
| Slept.

(** The variables of the main loop. *)
Record Loop : Type := mkLoop {
  investors_data : list InvestorRecord;
  successful : nat;
  failed : nat;
  events : list Event
}.

(** What a crawl meets outside the program. *)
Record World : Type := mkWorld {
  start_time : str;
  end_time : str;
  directory : str + list Node;
  site : str -> Visit
}.

Section Driver.

Variable urljoin : str -> str -> str.
Variable w : World.

(** One turn of the main loop, for the [i]-th address of [total]. *)
Definition crawl_step (total : nat) (st : Loop) (item : nat * str) : Loop :=
  let (i, address) := item in
  let investor_data := scrape_investor_data (site w address) address in
  let success := PyStr.eqb (status investor_data) (lit "success") in
  mkLoop (investors_data st ++ [investor_data])
         (if success then S (successful st) else successful st)
         (if success then failed st else S (failed st))
         (events st ++ Scraped address :: (if i <? total then [Slept] else [])).

(** [enumerate(investor_urls, 1)] *)
Definition enumerate1 (investor_urls : list str) : list (nat * str) :=
  combine (seq 1 (length investor_urls)) investor_urls.

(** [crawl_all_investors]: the result, or the message of an exception that
    leaves the function, with the calls made. *)
Definition crawl_all_investors : (str + CrawlResult) * list Event :=
  let investor_urls := collect_investor_urls urljoin (directory w) in
  match investor_urls with
  | [] => (inr (NoUrls (lit "No URLs found")), [])
  | _ :: _ =>
      let total := length investor_urls in
      let st := fold_left (crawl_step total) (enumerate1 investor_urls)
                          (mkLoop [] 0 0 []) in
      match success_rate_of (successful st) total with
      | inl message => (inl message, events st)
      | inr rate =>
          (inr (Crawled (mkMetadata (start_time w) (end_time w) total
                                    (successful st) (failed st) rate)
                        (investors_data st)),
           events st)
      end
  end.

End Driver.

(** The field [total] of a summary, where the result has one. *)
Definition reported_total (result : CrawlResult) : option nat :=
  match result with
  | NoUrls _ => None
  | Crawled metadata _ => Some (total_investors metadata)
  end.

(* ================================================================== *)
(** ** Vocabulary of the statements *)

(** Statement [s] of the [try] block runs to its end during visit [v]:
    no exception is raised in it or before it. *)
Definition completes (v : Visit) (s : Step) : bool :=
  match fault v with
  | None => true
  | Some (s', _) => step_index s <? step_index s'
  end.

(** The same visit, without the exception. *)
Definition without_fault (v : Visit) : Visit :=
  mkVisit (now v) (page_source v) None.

(** Worded after the specification: the link-list procedure it describes
    for the industries and the geography fields, for any heading and filter
    parameter.  After the heading, the next container is entered and the
    display text of every link whose target contains the parameter is
    collected, once each, in document order.  [_extract_industries] is its
    instance at [industries] and [industries=]. *)
Definition add_filter_link (parameter : str) (items : list str) (link : Node)
  : list str :=
  if contains parameter (get (lit "href") link) then
    let text := get_text_strip link in
    if truthy text && negb (mem text items) then items ++ [text] else items
  else items.

Fixpoint link_list_loop (soup : list Node) (label parameter : str)
         (headings : list (Path * Node)) : list str :=
  match headings with
  | [] => []
  | h3 :: rest =>
      if PyStr.eqb (lower (strip (get_text (snd h3)))) label then
        match find_next (has_name (lit "div")) soup (fst h3) with
        | Some next_div =>
            fold_left (add_filter_link parameter)
                      (List.map snd (find_all_in is_link (fst next_div) (snd next_div)))
                      []
        | None => []
        end
      else link_list_loop soup label parameter rest
  end.

Definition extract_link_list (soup : list Node) (label parameter : str)
  : list str :=
  link_list_loop soup label parameter (find_all is_heading soup).

(** Modelled from the spec: the delimiter-joined rendering of a parsed list
    ([parse_to_string]), which the source does not contain.  The items are
    joined with a separator made of list delimiters and whitespace, with at
    least one delimiter in it (a comma and a space, a newline, ...). *)
Definition parse_to_string (separator : str) (items : list str) : str :=
  join separator items.

Definition is_blank (c : char) : bool := is_list_delimiter c || isspace c.

Definition is_separator (separator : str) : bool :=
  existsb is_list_delimiter separator && forallb is_blank separator.

(** What one piece of the split text adds to the parsed list. *)
Definition cleaned_piece (item : str) : list str :=
  let cleaned := strip item in
  if truthy cleaned && (1 <? length cleaned) then [cleaned] else [].

(** The four keys of [personal_contacts], and the branch of the chain in
    [classify_link] a link falls in. *)
Inductive Category : Type := Email | LinkedIn | Twitter | Website.

Definition category_eqb (a b : Category) : bool :=
  match a, b with
  | Email, Email | LinkedIn, LinkedIn | Twitter, Twitter
  | Website, Website => true
  | _, _ => false
  end.

Definition category_of (link : Node) : option Category :=
  let href := get (lit "href") link in
  if is_mercury_link href then None
  else if contains (lit "mailto:") href then Some Email
  else if contains (lit "linkedin.com/in/") href then Some LinkedIn
  else if (contains (lit "twitter.com") href || contains (lit "x.com") href)
          && negb (contains (lit "/mercury") href) then Some Twitter
  else if startswith (lit "http") href && negb (contains base_url href) then
    if existsb (fun personal_indicator =>
                  contains personal_indicator (lower (get_text link)))
               [lit "website"; lit "blog"; lit "personal"]
    then Some Website else None
  else None.

(** What a link stores under its key. *)
Definition stored_value (link : Node) : str :=
  let href := get (lit "href") link in
  if contains (lit "mailto:") href then replace (lit "mailto:") [] href
  else href.

Definition contact (c : Category) (pc : Contacts) : str :=
  match c with
  | Email => email pc
  | LinkedIn => linkedin pc
  | Twitter => twitter pc
  | Website => website pc
  end.

(** The links of a page that fall in category [c], in document order. *)
Definition links_in (c : Category) (links : list Node) : list Node :=
  filter (fun link =>
            match category_of link with
            | Some c' => category_eqb c c'
            | None => false
            end) links.

(** The targets the collector keeps, resolved, one per link and in document
    order, before duplicates are dropped. *)
Definition is_detail_target (href : str) : bool :=
  contains (lit "/investor-database/") href
  && negb (PyStr.eqb href (lit "/investor-database")).

Definition resolve (urljoin : str -> str -> str) (href : str) : str :=
  if startswith (lit "/") href then urljoin base_url href else href.

Definition link_targets (soup : list Node) : list str :=
  List.map (fun e => get (lit "href") (snd e)) (find_all is_link soup).

Definition candidates (urljoin : str -> str -> str) (soup : list Node)
  : list str :=
  List.map (resolve urljoin) (filter is_detail_target (link_targets soup)).

(** The position at which [x] is first seen in [l] ([length l] if never). *)
Fixpoint first_seen (x : str) (l : list str) : nat :=
  match l with
  | [] => 0
  | y :: l' => if PyStr.eqb y x then 0 else S (first_seen x l')
  end.

(** Pages and visits used as examples. *)
Definition heading (text : string) : Node :=
  Tag (lit "h3") [(lit "class", lit "arcadia-heading-9")]
      [NavigableString (lit text)].

Definition anchor (href text : string) : Node :=
  Tag (lit "a") [(lit "href", lit href)] [NavigableString (lit text)].

Definition paragraph (text : string) : Node :=
  Tag (lit "p") [] [NavigableString (lit text)].

(** Geography given as filter links in a container. *)
Definition page_geography_links : list Node :=
  [ heading "Geography";
    Tag (lit "div") []
        [ anchor "/investor-database?geography=us" "United States";
          anchor "/investor-database?geography=ca" "Canada" ] ].

(** Geography given as text in a paragraph. *)
Definition page_geography_text : list Node :=
  [ heading "Geography"; paragraph "United States, Canada" ].

Definition visit_ok (page : list Node) : Visit :=
  mkVisit (lit "2024-01-01T00:00:00") page None.

(** Two pages with personal contact links: one address, then a second one
    later in the document; between them a link of the platform itself. *)
Definition page_one_mailto : list Node :=
  [ anchor "mailto:jane@x.com" "Email" ].

Definition page_two_mailto : list Node :=
  [ anchor "mailto:jane@x.com" "Email";
    anchor "mailto:support@mercury.com" "Support";
    Tag (lit "div") [] [ anchor "mailto:joe@y.org" "Mail" ] ].

(** [urljoin] where the crawler needs it: a base without path and a
    reference that is an absolute path. *)
Definition origin_join (base href : str) : str := base ++ href.

(** A directory page that links to itself with a trailing slash, and to two
    investors, one of them twice. *)
Definition page_directory : list Node :=
  [ anchor "/investor-database" "Investors";
    anchor "/investor-database/" "All investors";
    Tag (lit "div") []
        [ anchor "/investor-database/aaron-holiday" "Aaron Holiday";
          anchor "/pricing" "Pricing";
          anchor "https://mercury.com/investor-database/adam-gries" "Adam Gries";
          anchor "/investor-database/aaron-holiday" "Aaron" ] ].

(** *** Reading a success rate *)

(** A text of code points as a string of bytes. *)
Definition show (s : str) : string :=
  string_of_list_ascii (List.map ascii_of_N s).

Definition is_digit (c : char) : bool := ((48 <=? c) && (c <=? 57))%N.

(** The number a text of decimal digits denotes, when the text is the usual
    way of writing the number: digits only, at least one, no zero in front
    of another digit. *)
Definition read_number (s : str) : option N :=
  if forallb is_digit s then
    match NilZero.uint_of_string (show s) with
    | Some d =>
        if String.eqb (NilZero.string_of_uint (N.to_uint (N.of_uint d))) (show s)
        then Some (N.of_uint d) else None
    | None => None
    end
  else None.

(** The number of tenths of a percent a rate denotes: the text must be a
    number, a point, one digit and the percent sign. *)
Definition read_rate (text : str) : option Z :=
  match rev text with
  | percent :: d :: point :: whole =>
      if char_eqb percent 37%N && char_eqb point 46%N then
        match read_number (rev whole), read_number [d] with
        | Some a, Some b => Some (10 * Z.of_N a + Z.of_N b)%Z
        | _, _ => None
        end
      else None
  | _ => None
  end.

(** [k] is the whole number nearest to [num / den], and the even one of the
    two when [num / den] lies half way between two whole numbers. *)
Definition nearest_even (num den k : Z) : Prop :=
  (2 * Z.abs (k * den - num) <= den)%Z /\
  ((2 * Z.abs (k * den - num))%Z = den -> Z.even k = true).

(** [text] prints the float [x] as a percentage with one decimal: for a
    float that is zero or positive, of value [m * 2 ^ e], the text reads as
    the number of tenths nearest to ten times that value. *)
Definition prints_tenths (x : float) (text : str) : Prop :=
  match Prim2SF x with
  | S754_zero false => read_rate text = Some 0%Z
  | S754_finite false m e =>
      exists k,
        read_rate text = Some k /\
        if (0 <=? e)%Z then k = (Z.pos m * 10 * 2 ^ e)%Z
        else nearest_even (Z.pos m * 10) (2 ^ (- e)) k
  | _ => True
  end.

(** The number of tenths [format_1f] prints for a float that is zero or
    positive, and the same number worked out with shifts. *)
Definition float_tenths (x : float) : option Z :=
  match Prim2SF x with
  | S754_zero false => Some 0%Z
  | S754_finite false m e =>
      Some (if (0 <=? e)%Z then (Z.pos m * 10 * 2 ^ e)%Z
            else round_half_even (Z.pos m * 10) (2 ^ (- e)))
  | _ => None
  end.

Definition fast_tenths (x : float) : option Z :=
  match Prim2SF x with
  | S754_zero false => Some 0%Z
  | S754_finite false m e =>
      Some (if (0 <=? e)%Z then (Z.pos m * 10 * 2 ^ e)%Z
            else
              let num := (Z.pos m * 10)%Z in
              let den := Z.shiftl 1 (- e) in
              let q := Z.shiftr num (- e) in
              let r := Z.land num (Z.ones (- e)) in
              if (den <? 2 * r)%Z then (q + 1)%Z
              else if (2 * r =? den)%Z
                   then (if Z.even q then q else (q + 1)%Z)
                   else q)
  | _ => None
  end.

(** The float of the success rate of [s] successes out of [n]. *)
Definition rate_float (s n : Z) : float :=
  PrimFloat.mul
    (PrimFloat.div (PrimFloat.of_uint63 (Uint63.of_Z s))
                   (PrimFloat.of_uint63 (Uint63.of_Z n)))
    (float_of_nat 100).

(** The rate printed for [s] out of [n] is within a twentieth of a percent
    of [100 * s / n]. *)
Definition rate_within (n s : Z) : bool :=
  match fast_tenths (rate_float s n) with
  | Some k => (2 * Z.abs (k * n - 1000 * s) <=? n)%Z
  | None => false
  end.

(** [f] holds from [z] down, [fuel] steps. *)
Fixpoint check_down (fuel : nat) (f : Z -> bool) (z : Z) : bool :=
  f z && match fuel with
         | O => true
         | S fuel' => check_down fuel' f (z - 1)
         end.

(** [rate_within] holds for every number of successes from 0 to the
    total. *)
Definition rates_within (total : Z) : bool :=
  check_down (Z.to_nat total) (rate_within total) total.

(** The calls of a crawl over [addresses]: one visit per address, and a
    pause after each visit but the last. *)
Fixpoint visits_with_pauses (addresses : list str) : list Event :=
  match addresses with
  | [] => []
  | [address] => [Scraped address]
  | address :: rest => Scraped address :: Slept :: visits_with_pauses rest
  end.

(** [investor_data["status"] == "success"] *)
Definition is_success (r : InvestorRecord) : bool :=
  PyStr.eqb (status r) (lit "success").

(** A world whose directory page has no link. *)
Definition world_empty : World :=
  mkWorld (lit "2024-01-01T00:00:00") (lit "2024-01-01T00:00:09")
          (inr []) (fun _ => visit_ok []).

(** A world with nine investors; the pages of the third and of the eighth
    fail to load. *)
Definition page_nine : list Node :=
  List.map (fun n => anchor ("/investor-database/investor-" ++ n) n)
           ["1"; "2"; "3"; "4"; "5"; "6"; "7"; "8"; "9"]%string.

Definition site_nine (address : str) : Visit :=
  if PyStr.eqb address (lit "https://mercury.com/investor-database/investor-3")
     || PyStr.eqb address (lit "https://mercury.com/investor-database/investor-8")
  then mkVisit (lit "2024-01-01T00:00:00") []
               (Some (LoadPage, lit "Message: timeout"))
  else visit_ok [ heading "Stages"; paragraph "Seed, Series A; Series B" ].

Definition world_nine : World :=
  mkWorld (lit "2024-01-01T00:00:00") (lit "2024-01-01T00:01:00")
          (inr page_nine) site_nine.

(* ================================================================== *)
(** ** The callers of the crawler *)

(** [l[:k]]: the first [k] items, or all but the last [-k] when [k] is
    negative. *)
Definition slice_to {A : Type} (k : Z) (l : list A) : list A :=
  if (k <? 0)%Z then firstn (length l - Z.to_nat (- k)) l
  else firstn (Z.to_nat k) l.

(** The dictionary [sample_run] hands to [save_to_json]. *)
Record SampleResult : Type := mkSample {
  sample_scraped_date : str;
  sample_size : nat;
  total_available : nat;
  sample_successful_scrapes : nat;
  sample_mode : str;
  sample_investors : list InvestorRecord
}.

Section SampleRun.

Variable urljoin : str -> str -> str.
Variable w : World.

(** One turn of the loop of [sample_run], for the [i]-th address of
    [total]. *)
Definition sample_step (total : nat)
           (st : list InvestorRecord * list Event) (item : nat * str)
  : list InvestorRecord * list Event :=
  let (i, address) := item in
  let investor_data := scrape_investor_data (site w address) address in
  (fst st ++ [investor_data],
   snd st ++ Scraped address :: (if i <? total then [Slept] else [])).

(** [sample_run(sample_size)] of [sample_run.py]: what is saved, if
    anything, and the calls made. *)
Definition sample_run (size : Z) : option SampleResult * list Event :=
  let urls := collect_investor_urls urljoin (directory w) in
  match urls with
  | [] => (None, [])
  | _ :: _ =>
      let sample_urls := slice_to size urls in
      let st := fold_left (sample_step (length sample_urls))
                          (enumerate1 sample_urls) ([], []) in
      let investors_data := fst st in
      (Some (mkSample (end_time w) (length sample_urls) (length urls)
                      (length (filter is_success investors_data))
                      (lit "sample") investors_data),
       snd st)
  end.

End SampleRun.

Definition str_eq_dec : forall a b : str, {a = b} + {a <> b} :=
  list_eq_dec N.eq_dec.

(** What [test_url_collection] of [test_url_collection.py] works out from
    the collected addresses. *)
Record CollectionReport : Type := mkReport {
  total_urls_found : nat;
  unique_urls : nat;
  duplicates : nat;
  valid_patterns : nat;
  first_five : list str
}.

(** The test of the pattern loop. *)
Definition has_valid_pattern (url : str) : bool :=
  startswith (lit "https://mercury.com/investor-database/") url
  && negb (PyStr.eqb url (lit "https://mercury.com/investor-database")).

(** [test_url_collection]; [len(set(all_urls))] is the number of distinct
    addresses. *)
Definition test_url_collection (urljoin : str -> str -> str)
           (directory : str + list Node) : option CollectionReport :=
  let all_urls := collect_investor_urls urljoin directory in
  match all_urls with
  | [] => None
  | _ :: _ =>
      let unique := length (nodup str_eq_dec all_urls) in
      Some (mkReport (length all_urls) unique (length all_urls - unique)
                     (length (filter has_valid_pattern all_urls))
                     (slice_to 5 all_urls))
  end.

(** The links of the section a locator enters: those inside the first
    container that follows the first section heading that [matches]; none
    if no heading matches or no container follows. *)
Definition section_links (matches : Node -> bool) (soup : list Node)
  : list Node :=
  match find (fun h3 => matches (snd h3)) (find_all is_heading soup) with
  | Some h3 =>
      match find_next (has_name (lit "div")) soup (fst h3) with
      | Some next_div =>
          List.map snd (find_all_in is_link (fst next_div) (snd next_div))
      | None => []
      end
  | None => []
  end.

Definition is_industries_heading (h3 : Node) : bool :=
  PyStr.eqb (lower (strip (get_text h3))) (lit "industries").

Definition is_contact_links_heading (h3 : Node) : bool :=
  contains (lit "contact links") (lower (strip (get_text h3))).

(** Geography given as a paragraph inside a container, the heading at the
    top level of the document and, next, inside [html] and [body]. *)
Definition page_geography_nested : list Node :=
  [ heading "Geography";
    Tag (lit "div") [] [ paragraph "United States, Canada" ] ].

Definition page_geography_in_body : list Node :=
  [ Tag (lit "html") [] [ Tag (lit "body") [] page_geography_nested ] ].

(** An exception is raised during the visit. *)
Definition raises (v : Visit) : bool :=
  match fault v with Some _ => true | None => false end.

(** The key under which [_extract_contact_info] stores a link, if it stores
    it at all. *)
Definition contact_key (link : Node) : option str :=
  let text := get_text_strip link in
  if negb (truthy text) || (length (strip text) <? 2) then None
  else Some (strip text).

Definition is_key (key : str) (link : Node) : bool :=
  match contact_key link with
  | Some k => PyStr.eqb k key
  | None => false
  end.

(* ================================================================== *)
(** ** Facts about strings *)

(** Splits a conjunction into its parts, without entering implications. *)
Ltac split_ands := repeat match goal with |- _ /\ _ => split end.

Lemma truthy_false (s : str) : truthy s = false -> s = [].
Proof. destruct s; [reflexivity | discriminate]. Qed.

Lemma char_eqb_eq (a b : char) : char_eqb a b = true <-> a = b.
Proof. apply N.eqb_eq. Qed.

Lemma eqb_eq (s t : str) : PyStr.eqb s t = true <-> s = t.
Proof.
  revert t; induction s as [|a s IH]; intros [|b t]; simpl;
    try (split; [discriminate | discriminate]); [tauto|].
  rewrite andb_true_iff, char_eqb_eq, IH.
  split; [intros []; congruence | intros E; injection E; auto].
Qed.

Lemma eqb_refl (s : str) : PyStr.eqb s s = true.
Proof. now apply eqb_eq. Qed.

Lemma mem_In (x : str) (xs : list str) : mem x xs = true <-> In x xs.
Proof.
  unfold mem. rewrite existsb_exists. split.
  - intros (y & Hy & E). apply eqb_eq in E. now subst.
  - intros H. exists x. split; [assumption | apply eqb_refl].
Qed.

(* ================================================================== *)
(** ** The record extractor *)

Section Extractor.

Variable v : Visit.
Variable address : str.

Let soup := page_source v.

(** Running the [try] block and its handler: every field holds what its
    statement computes if that statement ran to its end, and what the record
    was created with otherwise. *)
Lemma scrape_investor_data_fields :
  scrape_investor_data v address =
  mkRecord
    address
    (if completes v Name then name_chain soup address else [])
    (if completes v Industries then _extract_industries soup else [])
    (if completes v Stages
     then _parse_list_field (_extract_structured_field soup (lit "Stages"))
     else [])
    (if completes v CheckRange
     then strip (_extract_structured_field soup (lit "Check Range"))
     else [])
    (if completes v Bio && truthy (bio_candidate soup)
        && (50 <? length (bio_candidate soup))
     then bio_candidate soup else [])
    (if completes v Geography
     then _parse_list_field (_extract_structured_field soup (lit "Geography"))
     else [])
    (if completes v ContactLinks then personal_contacts_of soup else no_contacts)
    (if completes v ContactInfo then _extract_contact_info soup else [])
    (now v)
    (match fault v with None => lit "success" | Some _ => lit "error" end)
    (match fault v with None => None | Some (_, message) => Some message end).
Proof.
  subst soup.
  destruct v as [t page [[s message]|]]; [destruct s|];
    cbv [scrape_investor_data try_block completes fault now page_source];
    set (long := 50 <? _);
    cbv [bind reach ret raise assign fault step_index Nat.eqb Nat.ltb Nat.leb
         andb new_record];
    repeat match goal with
      | |- context [truthy ?x] =>
          let E := fresh "E" in
          destruct (truthy x) eqn:E;
          [| apply truthy_false in E; try rewrite !E ]
      end;
    try destruct long; reflexivity.
Qed.

End Extractor.

Lemma completes_without_fault (v : Visit) (s : Step) :
  completes (without_fault v) s = true.
Proof. reflexivity. Qed.

Lemma parse_list_field_guard (text : str) :
  (if truthy text then _parse_list_field text else []) = _parse_list_field text.
Proof. destruct text; reflexivity. Qed.

Lemma scrape_url_and_date (v : Visit) (address : str) :
  url (scrape_investor_data v address) = address /\
  scraped_date (scrape_investor_data v address) = now v.
Proof.
  rewrite scrape_investor_data_fields. split; reflexivity.
Qed.

(** C9.  Whatever the page holds, and whether or not an exception is raised
    while the record is filled, the record that [scrape_investor_data]
    returns carries the address it was called with: the field is set when
    the record is created and no statement assigns it again. *)
Theorem scrape_keeps_address (v : Visit) (address : str) :
  url (scrape_investor_data v address) = address /\
  url (new_record address (now v)) = address.
Proof.
  rewrite scrape_investor_data_fields. split; reflexivity.
Qed.

(** C3.  An exception raised anywhere in the [try] block ends in a record
    whose status is [error] and whose [error] key holds the message of the
    exception as it is; every field whose statement ran to its end before
    the exception holds the value it holds in the run without the exception
    (nothing is rolled back), the other fields hold what the record was
    created with.  A run without exception ends with status [success].  The
    status of a returned record is [success] or [error], never [pending],
    and the [error] key exists exactly when the status is [error]. *)
Theorem scrape_status_and_error (v : Visit) (address : str) :
  let r := scrape_investor_data v address in
  let r_ok := scrape_investor_data (without_fault v) address in
  let r_new := new_record address (now v) in
  (fault v = None -> status r = lit "success" /\ error r = None /\ r = r_ok) /\
  (forall s message, fault v = Some (s, message) ->
     status r = lit "error" /\ error r = Some message) /\
  (name r = if completes v Name then name r_ok else name r_new) /\
  (industries r =
     if completes v Industries then industries r_ok else industries r_new) /\
  (stages r = if completes v Stages then stages r_ok else stages r_new) /\
  (check_range r =
     if completes v CheckRange then check_range r_ok else check_range r_new) /\
  (geography r =
     if completes v Geography then geography r_ok else geography r_new) /\
  (bio r = if completes v Bio then bio r_ok else bio r_new) /\
  (contacts r =
     if completes v ContactLinks then contacts r_ok else contacts r_new) /\
  (contact_info r =
     if completes v ContactInfo then contact_info r_ok
     else contact_info r_new) /\
  url r = url r_new /\
  scraped_date r = scraped_date r_new /\
  (status r = lit "success" \/ status r = lit "error") /\
  status r <> lit "pending" /\
  (error r <> None <-> status r = lit "error").
Proof.
  cbv zeta.
  rewrite (scrape_investor_data_fields (without_fault v)).
  rewrite (scrape_investor_data_fields v).
  rewrite !completes_without_fault.
  destruct v as [t page [[s message]|]]; cbn [fault now page_source without_fault
    url name industries stages check_range bio geography contacts contact_info
    scraped_date status error new_record].
  all: split; [| split].
  all: try (intros H; first [discriminate H | repeat split; reflexivity]).
  all: try (intros s' message' H;
            first [discriminate H
                  | injection H as _ <-; split; reflexivity]).
  all: split_ands;
    try reflexivity;
    try (destruct (completes _ _); reflexivity);
    try discriminate.
  - right; reflexivity.
  - split; [reflexivity | discriminate].
  - left; reflexivity.
  - split; [intros H; now elim H | discriminate].
Qed.

(** C8.  The bio of the returned record is empty whenever the candidate
    text has at most 50 characters, and a bio that is not empty is longer
    than 50 characters; when it is not empty it is the candidate text. *)
Theorem bio_needs_more_than_50 (v : Visit) (address : str) :
  let r := scrape_investor_data v address in
  let candidate := bio_candidate (page_source v) in
  (length candidate <= 50 -> bio r = []) /\
  (bio r <> [] -> 50 < length (bio r) /\ bio r = candidate).
Proof.
  cbv zeta. rewrite scrape_investor_data_fields. cbn [bio].
  destruct (50 <? length (bio_candidate (page_source v))) eqn:L.
  - apply Nat.ltb_lt in L. split; [lia |].
    destruct (completes v Bio && truthy (bio_candidate (page_source v)) && true);
      [intros _; split; [exact L | reflexivity] | intros H; now elim H].
  - rewrite andb_false_r. split; [reflexivity | intros H; now elim H].
Qed.

Lemma industries_loop_link_list (soup : list Node)
      (headings : list (Path * Node)) :
  industries_loop soup headings =
  link_list_loop soup (lit "industries") (lit "industries=") headings.
Proof.
  induction headings as [|h3 rest IH]; [reflexivity |].
  cbn [industries_loop link_list_loop]. rewrite IH. reflexivity.
Qed.

Lemma find_next_from_document (want : Node -> bool) (soup : list Node)
      (i : nat) :
  find_next want soup [] = None /\ find_next want soup (parent [i]) = None.
Proof. split; reflexivity. Qed.

(** C1, as the code has it.  The geography field is filled by the
    procedure of the stages field, not by that of the industries field: the
    text of the paragraph found for the heading [Geography] goes through the
    list parser, and no link is looked at.  The paragraph is the next
    sibling paragraph of the heading or, failing that, the first paragraph
    met from the parent tag of the heading on; a heading at the top level of
    the document has the document itself as parent, from which nothing is
    met.  The industries field is the one filled by the link-list procedure,
    at the heading [industries] and the filter parameter [industries=]. *)
Theorem geography_parsed_like_stages (v : Visit) (address : str) :
  let r := scrape_investor_data v address in
  let soup := page_source v in
  geography r =
    (if completes v Geography
     then _parse_list_field (_extract_structured_field soup (lit "Geography"))
     else []) /\
  stages r =
    (if completes v Stages
     then _parse_list_field (_extract_structured_field soup (lit "Stages"))
     else []) /\
  industries r =
    (if completes v Industries
     then extract_link_list soup (lit "industries") (lit "industries=")
     else []) /\
  (forall i, find_next (has_name (lit "p")) soup (parent [i]) = None).
Proof.
  cbv zeta. rewrite scrape_investor_data_fields.
  cbn [geography stages industries].
  unfold extract_link_list, _extract_industries.
  rewrite industries_loop_link_list. repeat split.
Qed.

(** The geography of a page whose paragraph sits in a container after the
    heading: nothing when the heading is at the top level of the document,
    the regions when heading and container are inside [body]. *)
Example geography_of_nested_paragraph :
  let address := lit "https://mercury.com/investor-database/aaron-holiday" in
  _extract_structured_field page_geography_nested (lit "Geography") = [] /\
  geography (scrape_investor_data (visit_ok page_geography_nested) address)
  = [] /\
  _extract_structured_field page_geography_in_body (lit "Geography")
  = lit "United States, Canada" /\
  geography (scrape_investor_data (visit_ok page_geography_in_body) address)
  = [lit "United States"; lit "Canada"].
Proof. cbv zeta. repeat split; vm_compute; reflexivity. Qed.

(** C1, as stated, fails.  On a page whose Geography section is a container
    of filter links the link-list procedure finds both regions and the
    crawler finds none; on a page whose Geography section is a paragraph the
    crawler finds both regions and the link-list procedure, whatever the
    filter parameter, finds none. *)
Lemma geography_is_not_a_link_list :
  let address := lit "https://mercury.com/investor-database/aaron-holiday" in
  let r1 := scrape_investor_data (visit_ok page_geography_links) address in
  let r2 := scrape_investor_data (visit_ok page_geography_text) address in
  (status r1 = lit "success" /\
   geography r1 = [] /\
   extract_link_list page_geography_links (lit "geography") (lit "geography=")
   = [lit "United States"; lit "Canada"] /\
   geography r1 <>
   extract_link_list page_geography_links (lit "geography") (lit "geography=")) /\
  (status r2 = lit "success" /\
   geography r2 = [lit "United States"; lit "Canada"] /\
   forall parameter,
     extract_link_list page_geography_text (lit "geography") parameter = [] /\
     geography r2 <>
     extract_link_list page_geography_text (lit "geography") parameter).
Proof.
  cbv zeta. split; repeat split; try (vm_compute; reflexivity);
    vm_compute; discriminate.
Qed.

(* ================================================================== *)
(** ** Personal contacts *)

Lemma classify_link_category (pc : Contacts) (link : Node) :
  classify_link pc link =
  match category_of link with
  | None => pc
  | Some Email =>
      mkContacts (stored_value link) (linkedin pc) (twitter pc) (website pc)
  | Some LinkedIn =>
      mkContacts (email pc) (stored_value link) (twitter pc) (website pc)
  | Some Twitter =>
      mkContacts (email pc) (linkedin pc) (stored_value link) (website pc)
  | Some Website =>
      mkContacts (email pc) (linkedin pc) (twitter pc) (stored_value link)
  end.
Proof.
  unfold classify_link, category_of, stored_value.
  destruct (is_mercury_link _); [reflexivity |].
  destruct (contains (lit "mailto:") _); [reflexivity |].
  destruct (contains (lit "linkedin.com/in/") _); [reflexivity |].
  destruct ((contains (lit "twitter.com") _ || contains (lit "x.com") _)
            && negb (contains (lit "/mercury") _)); [reflexivity |].
  destruct (startswith (lit "http") _ && negb (contains base_url _));
    [| reflexivity].
  destruct (existsb _ _); reflexivity.
Qed.

Lemma last_cons_default (A : Type) (l : list A) :
  forall x d : A, last (x :: l) d = last l x.
Proof.
  induction l as [|y l IH]; intros x d; [reflexivity |].
  change (last (x :: y :: l) d) with (last (y :: l) d).
  rewrite !IH. reflexivity.
Qed.

(** After the loop, each key holds what the last link of its category
    stores, or what it held before the loop if there is no such link. *)
Lemma fold_classify_link_last (c : Category) (links : list Node) :
  forall pc,
    contact c (fold_left classify_link links pc) =
    last (List.map stored_value (links_in c links)) (contact c pc).
Proof.
  induction links as [|link links IH]; intros pc; [reflexivity |].
  cbn [fold_left]. rewrite IH, classify_link_category.
  unfold links_in. cbn [filter]. fold (links_in c links).
  destruct (category_of link) as [c'|]; [| reflexivity].
  destruct c, c'; cbn [category_eqb List.map contact email linkedin twitter website];
    rewrite ?last_cons_default; reflexivity.
Qed.

Lemma fold_classify_link_skips (links : list Node) :
  forall pc,
    fold_left classify_link links pc =
    fold_left classify_link
      (filter (fun link => negb (is_mercury_link (get (lit "href") link))) links)
      pc.
Proof.
  induction links as [|link links IH]; intros pc; [reflexivity |].
  cbn [fold_left filter].
  destruct (is_mercury_link (get (lit "href") link)) eqn:E; cbn [negb fold_left].
  - rewrite <- IH. f_equal. unfold classify_link. now rewrite E.
  - apply IH.
Qed.

(** C6.  A link whose target contains one of the platform's own domains
    leaves the contacts as they are, so the loop over all links of the page
    is the loop over the other links; and after the loop each of the four
    keys holds what the last link of its category, in document order,
    stores, or the empty string if the page has no such link.  With one
    [mailto:] link the email is its address; a second [mailto:] link later
    in the document replaces it. *)
Theorem last_matching_contact_wins (soup : list Node) :
  let links := List.map snd (find_all is_link soup) in
  (forall pc link,
     is_mercury_link (get (lit "href") link) = true ->
     classify_link pc link = pc) /\
  personal_contacts_of soup =
    fold_left classify_link
      (filter (fun link => negb (is_mercury_link (get (lit "href") link))) links)
      no_contacts /\
  (forall c,
     contact c (personal_contacts_of soup) =
     last (List.map stored_value (links_in c links)) []) /\
  (forall v address,
     completes v ContactLinks = true -> page_source v = soup ->
     contacts (scrape_investor_data v address) = personal_contacts_of soup) /\
  email (personal_contacts_of page_one_mailto) = lit "jane@x.com" /\
  email (personal_contacts_of page_two_mailto) = lit "joe@y.org".
Proof.
  cbv zeta. split_ands.
  - intros pc link E. unfold classify_link. now rewrite E.
  - apply fold_classify_link_skips.
  - intros c. unfold personal_contacts_of. rewrite fold_classify_link_last.
    destruct c; reflexivity.
  - intros v address C <-. rewrite scrape_investor_data_fields.
    cbn [contacts]. now rewrite C.
  - vm_compute. reflexivity.
  - vm_compute. reflexivity.
Qed.

(* ================================================================== *)
(** ** The URL collector *)

Lemma first_seen_lt (x : str) (l : list str) :
  In x l -> first_seen x l < length l.
Proof.
  induction l as [|y l IH]; [intros [] |].
  intros H. cbn [first_seen length].
  destruct (PyStr.eqb y x) eqn:E; [lia |].
  destruct H as [-> | H]; [now rewrite eqb_refl in E |].
  specialize (IH H). lia.
Qed.

Lemma first_seen_app_in (x : str) (l t : list str) :
  In x l -> first_seen x (l ++ t) = first_seen x l.
Proof.
  induction l as [|y l IH]; [intros [] |].
  intros H. cbn [first_seen app].
  destruct (PyStr.eqb y x) eqn:E; [reflexivity |].
  destruct H as [-> | H]; [now rewrite eqb_refl in E |].
  now rewrite IH.
Qed.

Lemma first_seen_app_new (x : str) (l : list str) :
  ~ In x l -> first_seen x (l ++ [x]) = length l.
Proof.
  induction l as [|y l IH]; intros H; cbn [first_seen app length].
  - now rewrite eqb_refl.
  - destruct (PyStr.eqb y x) eqn:E.
    + apply eqb_eq in E. subst. elim H. now left.
    + rewrite IH; [reflexivity |]. intros H'. apply H. now right.
Qed.

Section CollectorFacts.

Variable urljoin : str -> str -> str.

(** The candidates of a list of links. *)
Let seen_in (links : list Node) : list str :=
  List.map (resolve urljoin)
           (filter is_detail_target (List.map (get (lit "href")) links)).

Lemma collect_link_cases (acc : list str) (link : Node) :
  let href := get (lit "href") link in
  collect_link urljoin acc link =
  if is_detail_target href
  then (if mem (resolve urljoin href) acc then acc
        else acc ++ [resolve urljoin href])
  else acc.
Proof.
  cbv zeta. unfold collect_link, is_detail_target, resolve.
  destruct (_ && _); [| reflexivity].
  destruct (mem _ acc); reflexivity.
Qed.

(** The invariant of the loop: what has been collected lists, without
    repetition, the candidates met so far, in the order they were first
    met. *)
Lemma collect_loop_invariant (links : list Node) :
  let out := fold_left (collect_link urljoin) links [] in
  (forall u, In u out <-> In u (seen_in links)) /\
  NoDup out /\
  (forall i j x y,
     nth_error out i = Some x -> nth_error out j = Some y -> i < j ->
     first_seen x (seen_in links) < first_seen y (seen_in links)).
Proof.
  induction links as [|link links IH] using rev_ind.
  - cbn. repeat split.
    + intros [].
    + intros [].
    + constructor.
    + intros [|i] j x y H; discriminate H.
  - cbv zeta in *. destruct IH as (Hin & Hnd & Hord).
    rewrite fold_left_app. cbn [fold_left].
    rewrite collect_link_cases.
    unfold seen_in in *. rewrite map_app, filter_app, map_app.
    cbn [List.map filter].
    set (out := fold_left (collect_link urljoin) links []) in *.
    set (seen := List.map (resolve urljoin)
                   (filter is_detail_target (List.map (get (lit "href")) links))) in *.
    destruct (is_detail_target (get (lit "href") link)); cbn [List.map].
    2:{ rewrite app_nil_r. auto. }
    set (u := resolve urljoin (get (lit "href") link)).
    destruct (mem u out) eqn:M.
    + apply mem_In in M.
      split; [| split; [exact Hnd |]].
      * intros x. rewrite in_app_iff, <- Hin. cbn [In].
        split; [tauto |]. intros [H | [<- | []]]; assumption.
      * intros i j x y Hx Hy Hij.
        rewrite !first_seen_app_in.
        -- eapply Hord; eassumption.
        -- apply Hin. eapply nth_error_In; eassumption.
        -- apply Hin. eapply nth_error_In; eassumption.
    + assert (Hu : ~ In u out).
      { intros H. apply mem_In in H. congruence. }
      split; [| split].
      * intros x. rewrite !in_app_iff, Hin. tauto.
      * apply NoDup_app; [exact Hnd | repeat constructor; intros [] |].
        intros x Hx [<- | []]. exact (Hu Hx).
      * intros i j x y Hx Hy Hij.
        assert (Hi : i < length out).
        { assert (Hj : j < length (out ++ [u]))
            by (apply nth_error_Some; congruence).
          rewrite length_app in Hj. cbn in Hj. lia. }
        rewrite nth_error_app1 in Hx by exact Hi.
        assert (Hxs : In x seen) by (apply Hin; eapply nth_error_In; eassumption).
        rewrite (first_seen_app_in x seen [u] Hxs).
        destruct (Nat.lt_ge_cases j (length out)) as [Hj | Hj].
        -- rewrite nth_error_app1 in Hy by exact Hj.
           rewrite first_seen_app_in.
           ++ eapply Hord; eassumption.
           ++ apply Hin. eapply nth_error_In; eassumption.
        -- rewrite nth_error_app2 in Hy by exact Hj.
           destruct (j - length out) as [|k]; cbn in Hy;
             [| destruct k; discriminate Hy].
           injection Hy as <-.
           rewrite first_seen_app_new by (rewrite <- Hin; exact Hu).
           apply first_seen_lt. exact Hxs.
Qed.

End CollectorFacts.

Lemma link_targets_map (soup : list Node) :
  link_targets soup =
  List.map (get (lit "href")) (List.map snd (find_all is_link soup)).
Proof. unfold link_targets. now rewrite map_map. Qed.

(** C4.  On a rendered directory page the collector returns the targets of
    the links that contain [/investor-database/] and are not exactly
    [/investor-database], those that begin with a slash resolved against the
    base address and the others as they are: every such address is
    returned, nothing else is, no address is returned twice, and the
    addresses come in the order in which they are first seen in the
    document.  A page without such a link gives the empty list, and so does
    a page that fails to load within the wait. *)
Theorem collect_investor_urls_first_seen
        (urljoin : str -> str -> str) (soup : list Node) :
  let out := collect_investor_urls urljoin (inr soup) in
  let seen := candidates urljoin soup in
  (forall u,
     In u out <->
     exists href,
       In href (link_targets soup) /\
       (contains (lit "/investor-database/") href = true /\
        href <> lit "/investor-database") /\
       u = (if startswith (lit "/") href then urljoin base_url href else href)) /\
  NoDup out /\
  (forall i j x y,
     nth_error out i = Some x -> nth_error out j = Some y -> i < j ->
     first_seen x seen < first_seen y seen) /\
  (filter is_detail_target (link_targets soup) = [] -> out = []) /\
  (forall message, collect_investor_urls urljoin (inl message) = []).
Proof.
  cbv zeta. unfold collect_investor_urls, candidates.
  rewrite link_targets_map.
  destruct (collect_loop_invariant urljoin (List.map snd (find_all is_link soup)))
    as (Hin & Hnd & Hord).
  split; [| split; [exact Hnd | split; [exact Hord | split]]].
  - intros u. rewrite Hin, in_map_iff. split.
    + intros (href & <- & H). apply filter_In in H. destruct H as [H D].
      exists href. split; [exact H |]. split; [| reflexivity].
      unfold is_detail_target in D. apply andb_true_iff in D.
      destruct D as [D1 D2]. split; [exact D1 |].
      intros ->. now rewrite eqb_refl in D2.
    + intros (href & H & [D1 D2] & ->). exists href. split; [reflexivity |].
      apply filter_In. split; [exact H |].
      unfold is_detail_target. rewrite D1.
      destruct (PyStr.eqb href (lit "/investor-database")) eqn:E;
        [apply eqb_eq in E; contradiction | reflexivity].
  - intros E.
    destruct (fold_left (collect_link urljoin)
                        (List.map snd (find_all is_link soup)) []) as [|u out] eqn:O;
      [reflexivity |].
    exfalso. assert (H : In u (u :: out)) by now left.
    apply Hin in H. rewrite E in H. exact H.
  - reflexivity.
Qed.

(** C10.  The collector leaves out only the target that is exactly
    [/investor-database].  The same path with a slash at its end contains
    [/investor-database/], so a directory page that links to it has the
    address of the directory page itself, with the slash, among the
    addresses collected. *)
Theorem collect_keeps_directory_with_slash (urljoin : str -> str -> str) :
  urljoin base_url (lit "/investor-database/")
  = lit "https://mercury.com/investor-database/" ->
  is_detail_target (lit "/investor-database") = false /\
  is_detail_target (lit "/investor-database/") = true /\
  exists soup,
    In (lit "/investor-database") (link_targets soup) /\
    In (lit "/investor-database/") (link_targets soup) /\
    collect_investor_urls urljoin (inr soup)
    = [lit "https://mercury.com/investor-database/"].
Proof.
  intros J. split; [reflexivity | split; [reflexivity |]].
  exists [ anchor "/investor-database" "Investors";
           anchor "/investor-database/" "All investors" ].
  split; [left; reflexivity | split; [right; left; reflexivity |]].
  rewrite <- J. reflexivity.
Qed.

Lemma collect_keeps_directory_with_slash_witness :
  origin_join base_url (lit "/investor-database/")
  = lit "https://mercury.com/investor-database/" /\
  (is_detail_target (lit "/investor-database") = false /\
   is_detail_target (lit "/investor-database/") = true /\
   exists soup,
     In (lit "/investor-database") (link_targets soup) /\
     In (lit "/investor-database/") (link_targets soup) /\
     collect_investor_urls origin_join (inr soup)
     = [lit "https://mercury.com/investor-database/"]).
Proof.
  split; [reflexivity |].
  apply (collect_keeps_directory_with_slash origin_join). reflexivity.
Defined.

(** The collector on the example directory page. *)
Example collect_page_directory :
  collect_investor_urls origin_join (inr page_directory)
  = [ lit "https://mercury.com/investor-database/";
      lit "https://mercury.com/investor-database/aaron-holiday";
      lit "https://mercury.com/investor-database/adam-gries" ].
Proof. vm_compute. reflexivity. Qed.

(* ================================================================== *)
(** ** The crawl driver *)

Section DriverFacts.

Variable w : World.

Let scrape (address : str) : InvestorRecord :=
  scrape_investor_data (site w address) address.

(** The main loop from its [k]-th turn on, [total] being the number of the
    last turn: every address is scraped, whatever the status of the records
    before it, and the counters count the records by status. *)
Lemma crawl_loop (total : nat) (addresses : list str) :
  forall k st,
    k + length addresses = S total ->
    fold_left (crawl_step w total)
              (combine (seq k (length addresses)) addresses) st =
    mkLoop (investors_data st ++ List.map scrape addresses)
           (successful st
            + length (filter is_success (List.map scrape addresses)))
           (failed st
            + length (filter (fun r => negb (is_success r))
                             (List.map scrape addresses)))
           (events st ++ visits_with_pauses addresses).
Proof.
  induction addresses as [|a rest IH]; intros k st Hk.
  - cbn. rewrite !app_nil_r, !Nat.add_0_r. now destruct st.
  - cbn [length seq combine fold_left].
    cbn [length] in Hk.
    rewrite IH by lia.
    unfold crawl_step. fold (scrape a). fold (is_success (scrape a)).
    cbn [investors_data successful failed events List.map filter].
    rewrite <- !app_assoc. cbn [app].
    destruct rest as [|b rest].
    + assert (E : (k <? total) = false) by (apply Nat.ltb_ge; cbn in Hk; lia).
      rewrite E.
      destruct (is_success (scrape a)); cbn [negb length filter List.map];
        f_equal; lia.
    + assert (E : (k <? total) = true) by (apply Nat.ltb_lt; cbn in Hk; lia).
      rewrite E.
      destruct (is_success (scrape a)); cbn [negb length app];
        f_equal; lia.
Qed.

End DriverFacts.

Lemma success_rate_of_positive (successes total : nat) :
  total <> 0 ->
  success_rate_of successes total =
  inr (format_1f (PrimFloat.mul
                    (PrimFloat.div (float_of_nat successes) (float_of_nat total))
                    (float_of_nat 100)) ++ lit "%").
Proof.
  intros H. unfold success_rate_of, truediv.
  destruct total as [|n]; [contradiction | reflexivity].
Qed.

Lemma filter_partition_length (A : Type) (f : A -> bool) (l : list A) :
  length (filter f l) + length (filter (fun x => negb (f x)) l) = length l.
Proof.
  induction l as [|x l IH]; [reflexivity |].
  cbn [filter]. destruct (f x); cbn [negb length]; lia.
Qed.

(** *** The success rate *)

Lemma round_half_even_nearest (num den : Z) :
  (0 <= num)%Z -> (0 < den)%Z ->
  (0 <= round_half_even num den)%Z /\
  nearest_even num den (round_half_even num den).
Proof.
  intros Hn Hd. unfold round_half_even, nearest_even.
  assert (E := Z.div_mod num den ltac:(lia)).
  assert (R := Z.mod_pos_bound num den Hd).
  assert (Q : (0 <= num / den)%Z) by (apply Z.div_pos; lia).
  set (q := (num / den)%Z) in *. set (r := (num mod den)%Z) in *.
  destruct (den <? 2 * r)%Z eqn:C1.
  - apply Z.ltb_lt in C1. split; [lia |]. split; [nia | nia].
  - apply Z.ltb_ge in C1. destruct (2 * r =? den)%Z eqn:C2.
    + apply Z.eqb_eq in C2. destruct (Z.even q) eqn:Ev.
      * split; [lia |]. split; [nia | intros _; exact Ev].
      * split; [lia |]. split; [nia |]. intros _.
        rewrite Z.add_1_r, Z.even_succ, <- Z.negb_even, Ev. reflexivity.
    + apply Z.eqb_neq in C2. split; [lia |]. split; [nia | nia].
Qed.

Lemma show_lit (s : string) : show (lit s) = s.
Proof.
  unfold show, lit. rewrite map_map.
  rewrite (map_ext _ (fun a => a)) by (intros a; apply ascii_N_embedding).
  rewrite map_id. apply string_of_list_ascii_of_string.
Qed.

Lemma lit_cons (a : ascii) (s : string) :
  lit (String a s) = N_of_ascii a :: lit s.
Proof. reflexivity. Qed.

Lemma string_of_uint_digits (d : Decimal.uint) :
  forallb is_digit (lit (NilEmpty.string_of_uint d)) = true.
Proof.
  induction d; cbn [NilEmpty.string_of_uint]; [reflexivity | idtac ..];
    rewrite lit_cons; cbn [forallb]; rewrite IHd; reflexivity.
Qed.

Lemma to_uint_not_nil (n : N) : N.to_uint n <> Decimal.Nil.
Proof.
  destruct n as [|p]; [discriminate |]. apply Unsigned.to_uint_nonnil.
Qed.

(** A number printed reads as that number. *)
Lemma read_number_digits (z : Z) : read_number (digits z) = Some (Z.to_N z).
Proof.
  unfold read_number, digits. set (n := Z.to_N z).
  assert (D : forallb is_digit (lit (NilZero.string_of_uint (N.to_uint n)))
              = true).
  { assert (Nn := to_uint_not_nil n). unfold NilZero.string_of_uint.
    destruct (N.to_uint n) eqn:E; try contradiction;
      rewrite <- E; apply string_of_uint_digits. }
  rewrite D, show_lit, NilZero.usu by apply to_uint_not_nil.
  rewrite DecimalN.Unsigned.of_to, String.eqb_refl. reflexivity.
Qed.

Lemma digits_one (b : Z) :
  (0 <= b < 10)%Z -> exists d, digits b = [d].
Proof.
  intros H.
  assert (C : (b = 0 \/ b = 1 \/ b = 2 \/ b = 3 \/ b = 4 \/ b = 5 \/ b = 6
               \/ b = 7 \/ b = 8 \/ b = 9)%Z) by lia.
  repeat (destruct C as [-> | C]; [eexists; reflexivity |]).
  subst b. eexists; reflexivity.
Qed.

(** A rate printed reads as its number of tenths. *)
Lemma read_rate_digits (k : Z) :
  (0 <= k)%Z ->
  read_rate (digits (k / 10) ++ lit "." ++ digits (k mod 10) ++ lit "%")
  = Some k.
Proof.
  intros Hk.
  assert (Hb : (0 <= k mod 10 < 10)%Z) by (apply Z.mod_pos_bound; lia).
  assert (Ha : (0 <= k / 10)%Z) by (apply Z.div_pos; lia).
  destruct (digits_one _ Hb) as (d & Ed).
  assert (Rb := read_number_digits (k mod 10)). rewrite Ed in Rb.
  unfold read_rate. rewrite Ed.
  change (lit ".") with [46%N]. change (lit "%") with [37%N].
  rewrite !rev_app_distr. cbn [rev app char_eqb N.eqb Pos.eqb andb].
  rewrite rev_involutive, read_number_digits, Rb.
  f_equal. rewrite !Z2N.id by lia.
  rewrite (Z.div_mod k 10) at 3 by lia. reflexivity.
Qed.

(** What [format_1f] prints for a float that is zero or positive. *)
Lemma format_1f_tenths (x : float) (k : Z) :
  float_tenths x = Some k ->
  (0 <= k)%Z /\
  format_1f x = digits (k / 10) ++ lit "." ++ digits (k mod 10).
Proof.
  unfold float_tenths, format_1f.
  destruct (Prim2SF x) as [[|] | [|] | | [|] m e]; try discriminate;
    intros H; injection H as <-.
  - split; [lia | reflexivity].
  - split; [| reflexivity].
    destruct (0 <=? e)%Z eqn:E.
    + apply Z.leb_le in E. assert (0 < 2 ^ e)%Z by (apply Z.pow_pos_nonneg; lia).
      revert H. destruct (2 ^ e)%Z; intros H; lia.
    + apply Z.leb_gt in E.
      apply round_half_even_nearest; [lia | apply Z.pow_pos_nonneg; lia].
Qed.

Lemma format_1f_reads (x : float) (k : Z) :
  float_tenths x = Some k -> read_rate (format_1f x ++ lit "%") = Some k.
Proof.
  intros H. destruct (format_1f_tenths x k H) as [Hk ->].
  rewrite <- !app_assoc. now apply read_rate_digits.
Qed.

(** [format_1f] prints every float that is zero or positive with one
    decimal, rounded to nearest, ties to even. *)
Lemma format_1f_prints (x : float) : prints_tenths x (format_1f x ++ lit "%").
Proof.
  unfold prints_tenths.
  destruct (Prim2SF x) as [[|] | [|] | | [|] m e] eqn:P; try exact I.
  - apply format_1f_reads. unfold float_tenths. now rewrite P.
  - eexists. split.
    + apply format_1f_reads. unfold float_tenths. rewrite P. reflexivity.
    + destruct (0 <=? e)%Z eqn:E; [reflexivity |].
      apply Z.leb_gt in E.
      apply round_half_even_nearest; [lia | apply Z.pow_pos_nonneg; lia].
Qed.

Lemma fast_tenths_eq (x : float) : fast_tenths x = float_tenths x.
Proof.
  unfold fast_tenths, float_tenths.
  destruct (Prim2SF x) as [[|] | [|] | | [|] m e]; try reflexivity.
  destruct (0 <=? e)%Z eqn:E; [reflexivity |]. apply Z.leb_gt in E.
  cbv zeta. unfold round_half_even.
  rewrite Z.shiftl_1_l, Z.shiftr_div_pow2, Z.land_ones by lia.
  reflexivity.
Qed.

Lemma check_down_sound (f : Z -> bool) (fuel : nat) :
  forall z, check_down fuel f z = true ->
  forall i, (z - Z.of_nat fuel <= i <= z)%Z -> f i = true.
Proof.
  induction fuel as [|fuel IH]; intros z H i Hi; cbn [check_down] in H;
    apply andb_true_iff in H; destruct H as [Hz H].
  - assert (i = z) by lia. now subst.
  - destruct (Z.eq_dec i z) as [-> | Ne]; [exact Hz |].
    apply (IH (z - 1)%Z H). lia.
Qed.

(** Every total from 1 to 500, by computation. *)
Lemma rates_within_500 : check_down 499 rates_within 500 = true.
Proof. vm_compute. reflexivity. Qed.

(** The rate of the summary is [format_1f] of the float of the rate. *)
Lemma success_rate_of_float (successes total : nat) :
  total <> 0 ->
  success_rate_of successes total =
  inr (format_1f (rate_float (Z.of_nat successes) (Z.of_nat total))
       ++ lit "%").
Proof. apply success_rate_of_positive. Qed.

(** Up to 500 addresses, the rate printed is within a twentieth of a
    percent of the rate itself. *)
Lemma rate_float_within (successes total : nat) :
  total <> 0 -> total <= 500 -> successes <= total ->
  exists k,
    float_tenths (rate_float (Z.of_nat successes) (Z.of_nat total)) = Some k /\
    (2 * Z.abs (k * Z.of_nat total - 1000 * Z.of_nat successes)
     <= Z.of_nat total)%Z.
Proof.
  intros H0 H1 Hs.
  assert (Hn : rates_within (Z.of_nat total) = true).
  { apply (check_down_sound rates_within 499 500 rates_within_500). lia. }
  unfold rates_within in Hn.
  assert (Hk : rate_within (Z.of_nat total) (Z.of_nat successes) = true).
  { apply (check_down_sound _ _ _ Hn). rewrite Z2Nat.id; lia. }
  unfold rate_within in Hk. rewrite fast_tenths_eq in Hk.
  destruct (float_tenths _) as [k|]; [| discriminate Hk].
  exists k. split; [reflexivity |]. now apply Z.leb_le.
Qed.

Lemma scrape_records_addresses (w : World) (addresses : list str) :
  List.map url
    (List.map (fun a => scrape_investor_data (site w a) a) addresses)
  = addresses.
Proof.
  induction addresses as [|a rest IH]; [reflexivity |].
  cbn [List.map]. rewrite IH.
  now rewrite (proj1 (scrape_url_and_date (site w a) a)).
Qed.

(** C5.  When the collector returns at least one address, the driver
    scrapes every address in turn, pausing between two visits, whatever the
    status of the records it gets; it returns a summary with one record per
    address, in order.  The total is the number of addresses, the successes
    and the failures count the records by status and add up to the total.
    The rate is the float of successes divided by total, times 100, printed
    with one decimal and a percent sign: the text reads as the number of
    tenths nearest to that float (ties to even), and up to 500 addresses
    it is within a twentieth of a percent of [100 * successes / total]; 7
    successes out of 9 print as [77.8%]. *)
Theorem crawl_all_investors_summary
        (urljoin : str -> str -> str) (w : World) :
  let investor_urls := collect_investor_urls urljoin (directory w) in
  let records :=
    List.map (fun a => scrape_investor_data (site w a) a) investor_urls in
  investor_urls <> [] ->
  exists metadata,
    crawl_all_investors urljoin w
    = (inr (Crawled metadata records), visits_with_pauses investor_urls) /\
    length records = length investor_urls /\
    List.map url records = investor_urls /\
    total_investors metadata = length investor_urls /\
    successful_scrapes metadata = length (filter is_success records) /\
    failed_scrapes metadata
    = length (filter (fun r => negb (is_success r)) records) /\
    successful_scrapes metadata + failed_scrapes metadata
    = length investor_urls /\
    success_rate_of (successful_scrapes metadata) (total_investors metadata)
    = inr (success_rate metadata) /\
    prints_tenths
      (PrimFloat.mul
         (PrimFloat.div (float_of_nat (successful_scrapes metadata))
                        (float_of_nat (total_investors metadata)))
         (float_of_nat 100))
      (success_rate metadata) /\
    (total_investors metadata <= 500 ->
     exists k,
       read_rate (success_rate metadata) = Some k /\
       (2 * Z.abs (k * Z.of_nat (total_investors metadata)
                   - 1000 * Z.of_nat (successful_scrapes metadata))
        <= Z.of_nat (total_investors metadata))%Z) /\
    success_rate_of 7 9 = inr (lit "77.8%") /\
    (successful_scrapes metadata = 7 -> total_investors metadata = 9 ->
     success_rate metadata = lit "77.8%").
Proof.
  cbv zeta. intros Hne. unfold crawl_all_investors, enumerate1.
  destruct (collect_investor_urls urljoin (directory w)) as [|a rest];
    [contradiction |].
  cbv beta iota zeta.
  set (investor_urls := a :: rest) in *.
  set (records := List.map (fun a => scrape_investor_data (site w a) a)
                           investor_urls).
  assert (Hlen : length investor_urls <> 0) by discriminate.
  rewrite (crawl_loop w (length investor_urls) investor_urls 1
                      (mkLoop [] 0 0 [])) by reflexivity.
  cbn [investors_data successful failed events app Nat.add].
  fold records.
  rewrite success_rate_of_positive by exact Hlen.
  eexists. split; [reflexivity |].
  cbn [total_investors successful_scrapes failed_scrapes success_rate].
  assert (R79 : success_rate_of 7 9 = inr (lit "77.8%"))
    by (vm_compute; reflexivity).
  assert (Hrec : length records = length investor_urls)
    by (unfold records; apply length_map).
  assert (Hsum := filter_partition_length _ is_success records).
  split_ands.
  - exact Hrec.
  - apply scrape_records_addresses.
  - reflexivity.
  - reflexivity.
  - reflexivity.
  - now rewrite Hsum.
  - apply success_rate_of_positive. exact Hlen.
  - apply format_1f_prints.
  - intros Hmax.
    destruct (rate_float_within (length (filter is_success records))
                                (length investor_urls) Hlen Hmax
                                ltac:(lia)) as (k & Hk & Hbound).
    exists k. split; [| exact Hbound].
    apply format_1f_reads in Hk. exact Hk.
  - exact R79.
  - intros H7 H9. rewrite H7, H9. vm_compute. reflexivity.
Qed.

Lemma crawl_all_investors_summary_witness :
  collect_investor_urls origin_join (directory world_nine) <> [] /\
  exists metadata investors,
    crawl_all_investors origin_join world_nine
    = (inr (Crawled metadata investors),
       visits_with_pauses
         (collect_investor_urls origin_join (directory world_nine))) /\
    length investors = 9 /\
    total_investors metadata = 9 /\
    successful_scrapes metadata = 7 /\
    failed_scrapes metadata = 2 /\
    success_rate metadata = lit "77.8%".
Proof.
  assert (H : collect_investor_urls origin_join (directory world_nine) <> [])
    by (vm_compute; discriminate).
  split; [exact H |].
  destruct (crawl_all_investors_summary origin_join world_nine H)
    as (metadata & Hrun & Hlen & _ & Htotal & Hok & Hfailed & _ & _ & _ & _
        & _ & Hrate).
  exists metadata, (List.map (fun a => scrape_investor_data (site world_nine a) a)
                             (collect_investor_urls origin_join (directory world_nine))).
  assert (H9 : total_investors metadata = 9)
    by (rewrite Htotal; vm_compute; reflexivity).
  assert (H7 : successful_scrapes metadata = 7)
    by (rewrite Hok; vm_compute; reflexivity).
  split_ands.
  - exact Hrun.
  - rewrite Hlen. vm_compute. reflexivity.
  - exact H9.
  - exact H7.
  - rewrite Hfailed. vm_compute. reflexivity.
  - exact (Hrate H7 H9).
Defined.

(** C2, as the code has it.  When the collector returns no address, the
    driver returns the result [{"error": "No URLs found"}]: it carries the
    message and nothing else, so it reports no total; no page is scraped, no
    pause is made, and the division of the success rate is never reached,
    so that no exception leaves the driver. *)
Theorem crawl_all_investors_no_urls
        (urljoin : str -> str -> str) (w : World) :
  collect_investor_urls urljoin (directory w) = [] ->
  crawl_all_investors urljoin w = (inr (NoUrls (lit "No URLs found")), []) /\
  reported_total (NoUrls (lit "No URLs found")) = None /\
  success_rate_of 0 0 = inl (lit "division by zero").
Proof.
  intros E. unfold crawl_all_investors. rewrite E.
  repeat split.
Qed.

Lemma crawl_all_investors_no_urls_witness :
  collect_investor_urls origin_join (directory world_empty) = [] /\
  crawl_all_investors origin_join world_empty
  = (inr (NoUrls (lit "No URLs found")), []).
Proof.
  split; [reflexivity |].
  apply (crawl_all_investors_no_urls origin_join world_empty). reflexivity.
Defined.

(** C2, as stated, fails.  With an empty directory page the result of the
    driver is not a summary whose total is 0: it has no total at all. *)
Lemma crawl_no_urls_reports_no_total :
  exists result,
    fst (crawl_all_investors origin_join world_empty) = inr result /\
    reported_total result = None /\
    reported_total result <> Some 0.
Proof.
  exists (NoUrls (lit "No URLs found")).
  split; [reflexivity | split; [reflexivity | discriminate]].
Qed.

(* ================================================================== *)
(** ** The list parser *)

Section Splitting.

Variable sep : char -> bool.

Lemma split_on_not_nil (s : str) : split_on sep s <> [].
Proof.
  destruct s as [|c t]; cbn [split_on]; [discriminate |].
  destruct (sep c); [discriminate |].
  destruct (split_on sep t); discriminate.
Qed.

(** Splitting at a separator splits the pieces. *)
Lemma split_on_app_sep (a b : str) (c : char) :
  sep c = true ->
  split_on sep (a ++ c :: b) = split_on sep a ++ split_on sep b.
Proof.
  intros Hc. induction a as [|x a IH]; cbn [app split_on].
  - now rewrite Hc.
  - rewrite IH. destruct (sep x); [reflexivity |].
    destruct (split_on sep a) as [|piece rest] eqn:E; [| reflexivity].
    now apply split_on_not_nil in E.
Qed.

(** A text without separator is its only piece. *)
Lemma split_on_no_sep (s : str) :
  forallb (fun c => negb (sep c)) s = true -> split_on sep s = [s].
Proof.
  induction s as [|c t IH]; [reflexivity |].
  cbn [forallb split_on]. intros H. apply andb_true_iff in H.
  destruct H as [Hc Ht]. rewrite (IH Ht).
  destruct (sep c); [discriminate | reflexivity].
Qed.

(** No piece contains a separator. *)
Lemma split_on_pieces (s : str) :
  forall piece, In piece (split_on sep s) ->
                forallb (fun c => negb (sep c)) piece = true.
Proof.
  induction s as [|c t IH]; cbn [split_on]; intros piece H.
  - destruct H as [<- | []]. reflexivity.
  - destruct (sep c) eqn:Hc.
    + destruct H as [<- | H]; [reflexivity | now apply IH].
    + destruct (split_on sep t) as [|p rest].
      * destruct H as [<- | []]. cbn. now rewrite Hc.
      * destruct H as [<- | H].
        -- cbn [forallb]. rewrite Hc. cbn. apply IH. now left.
        -- apply IH. now right.
Qed.

End Splitting.

(** *** Stripping *)

Lemma lstrip_spaces (w s : str) :
  forallb isspace w = true -> lstrip (w ++ s) = lstrip s.
Proof.
  induction w as [|c w IH]; [reflexivity |].
  cbn [forallb app lstrip]. intros H. apply andb_true_iff in H.
  destruct H as [Hc Hw]. rewrite Hc. now apply IH.
Qed.

Lemma lstrip_all_spaces (w : str) :
  forallb isspace w = true -> lstrip w = [].
Proof.
  intros H. rewrite <- (app_nil_r w). now rewrite lstrip_spaces.
Qed.

Lemma lstrip_idempotent (s : str) : lstrip (lstrip s) = lstrip s.
Proof.
  induction s as [|c t IH]; [reflexivity |].
  cbn [lstrip]. destruct (isspace c) eqn:E; [exact IH |].
  cbn [lstrip]. now rewrite E.
Qed.

Lemma lstrip_length (s : str) : length (lstrip s) <= length s.
Proof.
  induction s as [|c t IH]; [cbn; lia |].
  cbn [lstrip]. destruct (isspace c); cbn [length]; lia.
Qed.

(** A text that [lstrip] leaves as it is does not begin with a space. *)
Lemma lstrip_fixed_head (c : char) (t : str) :
  lstrip (c :: t) = c :: t -> isspace c = false.
Proof.
  cbn [lstrip]. destruct (isspace c); [| reflexivity].
  intros E. assert (L := lstrip_length t). rewrite E in L.
  cbn [length] in L. lia.
Qed.

(** What [lstrip] leaves before a last character that is not a space ends
    with that character. *)
Lemma lstrip_keeps_last (s : str) (c : char) :
  isspace c = false -> exists t, lstrip (s ++ [c]) = t ++ [c].
Proof.
  intros Hc. induction s as [|x s IH]; cbn [app lstrip].
  - rewrite Hc. now exists [].
  - destruct (isspace x); [exact IH |]. now exists (x :: s).
Qed.

Lemma lstrip_forallb (P : char -> bool) (s : str) :
  forallb P s = true -> forallb P (lstrip s) = true.
Proof.
  induction s as [|c t IH]; [reflexivity |].
  cbn [lstrip]. intros H. destruct (isspace c); [| exact H].
  cbn [forallb] in H. apply andb_true_iff in H. now apply IH.
Qed.

Lemma forallb_rev (P : char -> bool) (s : str) :
  forallb P (rev s) = forallb P s.
Proof.
  induction s as [|c t IH]; [reflexivity |].
  cbn [rev forallb]. rewrite forallb_app, IH. cbn [forallb].
  rewrite andb_true_r. apply andb_comm.
Qed.

Lemma strip_forallb (P : char -> bool) (s : str) :
  forallb P s = true -> forallb P (strip s) = true.
Proof.
  intros H. unfold strip, rstrip. rewrite forallb_rev.
  apply lstrip_forallb. rewrite forallb_rev. now apply lstrip_forallb.
Qed.

(** A stripped text begins and ends with a character that is not a space:
    stripping it on either side changes nothing. *)
Lemma strip_tight (s : str) :
  lstrip (strip s) = strip s /\ lstrip (rev (strip s)) = rev (strip s).
Proof.
  unfold strip, rstrip. rewrite rev_involutive, lstrip_idempotent.
  split; [| reflexivity].
  destruct (lstrip s) as [|c t] eqn:E; [reflexivity |].
  assert (Hc : isspace c = false).
  { apply (lstrip_fixed_head c t). rewrite <- E. apply lstrip_idempotent. }
  cbn [rev]. destruct (lstrip_keeps_last (rev t) c Hc) as (u & ->).
  rewrite rev_app_distr. cbn [rev app lstrip]. now rewrite Hc.
Qed.

(** Spaces around a stripped text are stripped away, and nothing more. *)
Lemma strip_padded (w1 item w2 : str) :
  lstrip item = item -> lstrip (rev item) = rev item ->
  forallb isspace w1 = true -> forallb isspace w2 = true ->
  strip (w1 ++ item ++ w2) = item.
Proof.
  intros L R H1 H2. unfold strip, rstrip.
  rewrite lstrip_spaces by exact H1.
  destruct item as [|c t].
  - cbn [app]. now rewrite (lstrip_all_spaces w2 H2).
  - assert (Hc : isspace c = false) by exact (lstrip_fixed_head c t L).
    cbn [app lstrip]. rewrite Hc.
    change (c :: t ++ w2) with ((c :: t) ++ w2).
    rewrite rev_app_distr, lstrip_spaces by (now rewrite forallb_rev).
    rewrite R. apply rev_involutive.
Qed.

(** *** Parsing *)

Lemma fold_keep_cleaned (items : list str) :
  forall acc,
    fold_left keep_cleaned items acc = acc ++ flat_map cleaned_piece items.
Proof.
  induction items as [|item items IH]; intros acc; cbn [fold_left flat_map].
  - now rewrite app_nil_r.
  - rewrite IH. unfold keep_cleaned, cleaned_piece.
    destruct (truthy (strip item) && (1 <? length (strip item)));
      [now rewrite <- app_assoc | reflexivity].
Qed.

(** The parsed list is what the pieces of the text add, piece by piece; the
    test for the empty text changes nothing. *)
Lemma parse_list_field_pieces (text : str) :
  _parse_list_field text =
  flat_map cleaned_piece (split_on is_list_delimiter text).
Proof.
  unfold _parse_list_field. destruct text as [|c t]; [reflexivity |].
  cbn [truthy negb]. apply fold_keep_cleaned.
Qed.

(** Parsing goes through a delimiter. *)
Lemma parse_list_field_app (a b : str) (d : char) :
  is_list_delimiter d = true ->
  _parse_list_field (a ++ d :: b) = _parse_list_field a ++ _parse_list_field b.
Proof.
  intros Hd. rewrite !parse_list_field_pieces.
  rewrite split_on_app_sep by exact Hd. apply flat_map_app.
Qed.

(** Blank characters before a text add nothing to the parsed list. *)
Lemma parse_list_field_blank_prefix (w s : str) :
  forallb is_blank w = true ->
  _parse_list_field (w ++ s) = _parse_list_field s.
Proof.
  induction w as [|c w IH]; [reflexivity |].
  cbn [forallb]. intros H. apply andb_true_iff in H. destruct H as [Hc Hw].
  specialize (IH Hw). destruct (is_list_delimiter c) eqn:D.
  - change ((c :: w) ++ s) with ([] ++ c :: (w ++ s)).
    rewrite parse_list_field_app by exact D. exact IH.
  - unfold is_blank in Hc. rewrite D in Hc. cbn [orb] in Hc.
    rewrite !parse_list_field_pieces in *.
    cbn [app split_on]. rewrite D.
    destruct (split_on is_list_delimiter (w ++ s)) as [|piece rest] eqn:E;
      [now apply split_on_not_nil in E |].
    rewrite <- IH. cbn [flat_map]. f_equal.
    unfold cleaned_piece, strip. cbn [lstrip]. now rewrite Hc.
Qed.

(** Every item the parser returns is stripped, has no delimiter in it and
    is longer than one character. *)
Lemma parse_list_field_items (text item : str) :
  In item (_parse_list_field text) ->
  lstrip item = item /\ lstrip (rev item) = rev item /\
  forallb (fun c => negb (is_list_delimiter c)) item = true /\
  1 < length item.
Proof.
  rewrite parse_list_field_pieces, in_flat_map.
  intros (piece & Hp & Hi). unfold cleaned_piece in Hi.
  destruct (truthy (strip piece) && (1 <? length (strip piece))) eqn:C;
    [| destruct Hi].
  destruct Hi as [<- | []].
  apply andb_true_iff in C. destruct C as [_ C]. apply Nat.ltb_lt in C.
  destruct (strip_tight piece) as [L R].
  repeat split; try assumption.
  apply strip_forallb. eapply split_on_pieces. exact Hp.
Qed.

(** A text that is one such item, with spaces after it, parses to the
    item. *)
Lemma parse_list_field_item (item w : str) :
  lstrip item = item -> lstrip (rev item) = rev item ->
  forallb (fun c => negb (is_list_delimiter c)) item = true ->
  1 < length item ->
  forallb isspace w = true ->
  forallb (fun c => negb (is_list_delimiter c)) w = true ->
  _parse_list_field (item ++ w) = [item].
Proof.
  intros L R D Len Hw Dw.
  rewrite parse_list_field_pieces, split_on_no_sep
    by (now rewrite forallb_app, D, Dw).
  cbn [flat_map]. rewrite app_nil_r. unfold cleaned_piece.
  assert (S := strip_padded [] item w L R eq_refl Hw). cbn [app] in S.
  rewrite S.
  destruct item as [|c t]; [cbn in Len; lia |].
  cbn [truthy andb]. apply Nat.ltb_lt in Len. now rewrite Len.
Qed.

(** A separator is spaces, then a delimiter, then blank characters. *)
Lemma separator_parts (separator : str) :
  is_separator separator = true ->
  exists w1 d w2,
    separator = w1 ++ d :: w2 /\
    forallb isspace w1 = true /\
    forallb (fun c => negb (is_list_delimiter c)) w1 = true /\
    is_list_delimiter d = true /\
    forallb is_blank w2 = true.
Proof.
  unfold is_separator. intros H. apply andb_true_iff in H.
  destruct H as [He Hf].
  induction separator as [|c t IH]; [discriminate He |].
  cbn [existsb forallb] in He, Hf. apply andb_true_iff in Hf.
  destruct Hf as [Hc Ht]. destruct (is_list_delimiter c) eqn:D.
  - exists [], c, t. repeat split; assumption.
  - cbn [orb] in He. destruct (IH He Ht) as (w1 & d & w2 & -> & S1 & N1 & Hd & B2).
    exists (c :: w1), d, w2. unfold is_blank in Hc. rewrite D in Hc.
    cbn [orb] in Hc. cbn [forallb]. rewrite Hc, D, S1, N1.
    repeat split; assumption.
Qed.

(** Parsing the rendering of well-formed items gives the items back. *)
Lemma parse_list_field_join (separator : str) (items : list str) :
  is_separator separator = true ->
  (forall item, In item items ->
     lstrip item = item /\ lstrip (rev item) = rev item /\
     forallb (fun c => negb (is_list_delimiter c)) item = true /\
     1 < length item) ->
  _parse_list_field (join separator items) = items.
Proof.
  intros Hs. destruct (separator_parts separator Hs)
    as (w1 & d & w2 & -> & S1 & N1 & Hd & B2).
  induction items as [|x items IH]; intros Hitems; [reflexivity |].
  destruct (Hitems x (or_introl eq_refl)) as (L & R & D & Len).
  assert (IH' := IH (fun item H => Hitems item (or_intror H))).
  destruct items as [|y items].
  - cbn [join]. rewrite <- (app_nil_r x) at 1.
    now apply parse_list_field_item.
  - change (join (w1 ++ d :: w2) (x :: y :: items))
      with (x ++ (w1 ++ d :: w2) ++ join (w1 ++ d :: w2) (y :: items)).
    rewrite <- app_assoc. cbn [app]. rewrite app_assoc.
    rewrite parse_list_field_app by exact Hd.
    rewrite parse_list_field_item by assumption.
    rewrite parse_list_field_blank_prefix by exact B2.
    rewrite IH'. reflexivity.
Qed.

(** C7.  Parsing a text, joining the items with a separator made of list
    delimiters and whitespace (at least one delimiter), and parsing the
    result gives the items of the first parse again. *)
Theorem parse_list_field_idempotent (separator x : str) :
  is_separator separator = true ->
  _parse_list_field (parse_to_string separator (_parse_list_field x))
  = _parse_list_field x.
Proof.
  intros Hs. unfold parse_to_string.
  apply parse_list_field_join; [exact Hs |].
  intros item. apply parse_list_field_items.
Qed.

Lemma parse_list_field_idempotent_witness :
  is_separator (lit ", ") = true /\
  _parse_list_field (lit "Seed, Series A; Series B")
  = [lit "Seed"; lit "Series A"; lit "Series B"] /\
  parse_to_string (lit ", ") (_parse_list_field (lit "Seed, Series A; Series B"))
  = lit "Seed, Series A, Series B" /\
  _parse_list_field
    (parse_to_string (lit ", ")
       (_parse_list_field (lit "Seed, Series A; Series B")))
  = _parse_list_field (lit "Seed, Series A; Series B").
Proof.
  split; [reflexivity |].
  split; [vm_compute; reflexivity |].
  split; [vm_compute; reflexivity |].
  apply (parse_list_field_idempotent (lit ", ") (lit "Seed, Series A; Series B")).
  reflexivity.
Defined.

(* ================================================================== *)
(** ** More on the list parser *)

Lemma tight_strip (item : str) :
  lstrip item = item -> lstrip (rev item) = rev item -> strip item = item.
Proof.
  intros L R. assert (S := strip_padded [] item [] L R eq_refl eq_refl).
  cbn [app] in S. now rewrite app_nil_r in S.
Qed.

Lemma forallb_negb_In (P : char -> bool) (s : str) :
  forallb (fun c => negb (P c)) s = true ->
  forall c, In c s -> P c = false.
Proof.
  intros H c Hc. rewrite forallb_forall in H.
  specialize (H c Hc). now destruct (P c).
Qed.

(** X1.  Every item of a parsed list is one of the pieces between the
    delimiters of the text, stripped; stripping it again changes nothing,
    it has at least two characters and no delimiter is left in it. *)
Theorem parse_list_field_items_clean (text item : str) :
  In item (_parse_list_field text) ->
  (exists piece,
     In piece (split_on is_list_delimiter text) /\ item = strip piece) /\
  strip item = item /\
  2 <= length item /\
  (forall c, In c item -> is_list_delimiter c = false /\ c <> 10%N).
Proof.
  intros H.
  destruct (parse_list_field_items text item H) as (L & R & D & Len).
  split_ands.
  - rewrite parse_list_field_pieces, in_flat_map in H.
    destruct H as (piece & Hp & Hi). exists piece. split; [exact Hp |].
    unfold cleaned_piece in Hi.
    destruct (truthy (strip piece) && (1 <? length (strip piece)));
      [| destruct Hi].
    destruct Hi as [<- | []]. reflexivity.
  - now apply tight_strip.
  - lia.
  - intros c Hc.
    assert (Dc := forallb_negb_In is_list_delimiter item D c Hc).
    split; [exact Dc |]. intros ->. discriminate Dc.
Qed.

Lemma parse_list_field_items_clean_witness :
  In (lit "Series A") (_parse_list_field (lit "Seed, Series A; Series B")) /\
  strip (lit "Series A") = lit "Series A".
Proof.
  assert (H : In (lit "Series A")
                 (_parse_list_field (lit "Seed, Series A; Series B")))
    by (right; left; reflexivity).
  split; [exact H |].
  exact (proj1 (proj2 (parse_list_field_items_clean _ _ H))).
Defined.

(** X2.  Texts joined by a delimiter parse to the parsed lists of the
    texts, one after the other: an item never runs across a delimiter. *)
Theorem parse_list_field_join_texts (d : char) (texts : list str) :
  is_list_delimiter d = true ->
  _parse_list_field (join [d] texts)
  = concat (List.map _parse_list_field texts).
Proof.
  intros Hd. induction texts as [|x texts IH]; [reflexivity |].
  destruct texts as [|y texts].
  - cbn [join List.map concat]. now rewrite app_nil_r.
  - change (join [d] (x :: y :: texts))
      with (x ++ d :: join [d] (y :: texts)).
    rewrite parse_list_field_app by exact Hd.
    rewrite IH. reflexivity.
Qed.

Lemma parse_list_field_join_texts_witness :
  is_list_delimiter 59%N = true /\
  _parse_list_field (join [59%N] [lit "Seed, Series A"; lit " Series B"])
  = concat (List.map _parse_list_field [lit "Seed, Series A"; lit " Series B"]).
Proof.
  split; [reflexivity |].
  apply (parse_list_field_join_texts 59%N). reflexivity.
Defined.

(** X3.  A text made of delimiters and whitespace only, the empty text
    among them, parses to the empty list. *)
Theorem parse_list_field_blank (text : str) :
  forallb is_blank text = true -> _parse_list_field text = [].
Proof.
  intros H. rewrite <- (app_nil_r text).
  now rewrite parse_list_field_blank_prefix.
Qed.

Lemma parse_list_field_blank_witness :
  forallb is_blank (lit " , ;  ") = true /\
  _parse_list_field (lit " , ;  ") = [].
Proof.
  split; [reflexivity |].
  apply (parse_list_field_blank (lit " , ;  ")). reflexivity.
Defined.

Lemma split_on_length (sep : char -> bool) (s : str) :
  length (split_on sep s) = S (length (filter sep s)).
Proof.
  induction s as [|c t IH]; [reflexivity |].
  cbn [split_on filter]. destruct (sep c); cbn [length].
  - now rewrite IH.
  - destruct (split_on sep t); cbn [length] in *; lia.
Qed.

Lemma cleaned_pieces_length (pieces : list str) :
  length (flat_map cleaned_piece pieces) <= length pieces.
Proof.
  induction pieces as [|p pieces IH]; [reflexivity |].
  cbn [flat_map]. rewrite length_app. unfold cleaned_piece at 1.
  destruct (truthy (strip p) && (1 <? length (strip p))); cbn [length]; lia.
Qed.

(** X4.  A parsed list has at most one item more than the text has
    delimiters. *)
Theorem parse_list_field_length (text : str) :
  length (_parse_list_field text)
  <= S (length (filter is_list_delimiter text)).
Proof.
  rewrite parse_list_field_pieces, <- split_on_length.
  apply cleaned_pieces_length.
Qed.

(* ================================================================== *)
(** ** More on the field locators *)

Lemma lstrip_fixed_app (s t : str) :
  s <> [] -> lstrip s = s -> lstrip (s ++ t) = s ++ t.
Proof.
  destruct s as [|c s]; [contradiction |]. intros _ L.
  assert (Hc := lstrip_fixed_head c s L).
  cbn [app lstrip]. now rewrite Hc.
Qed.

(** Stripped texts that are not empty, put together, make a stripped
    text. *)
Lemma concat_tight (pieces : list str) :
  (forall p, In p pieces ->
     p <> [] /\ lstrip p = p /\ lstrip (rev p) = rev p) ->
  lstrip (concat pieces) = concat pieces /\
  lstrip (rev (concat pieces)) = rev (concat pieces).
Proof.
  intros H. split.
  - destruct pieces as [|p pieces]; [reflexivity |].
    destruct (H p (or_introl eq_refl)) as (N & L & _).
    cbn [concat]. now apply lstrip_fixed_app.
  - destruct pieces as [|p0 pieces0] using rev_ind; [reflexivity |].
    clear IHpieces0.
    destruct (H p0) as (N & _ & R); [apply in_or_app; right; now left |].
    rewrite concat_app. cbn [concat]. rewrite app_nil_r, rev_app_distr.
    apply lstrip_fixed_app; [| exact R].
    intros E. apply N. rewrite <- (rev_involutive p0), E. reflexivity.
Qed.

Lemma get_text_strip_tight (n : Node) :
  lstrip (get_text_strip n) = get_text_strip n /\
  lstrip (rev (get_text_strip n)) = rev (get_text_strip n).
Proof.
  unfold get_text_strip. apply concat_tight.
  intros p Hp. apply filter_In in Hp. destruct Hp as [Hp T].
  apply in_map_iff in Hp. destruct Hp as (s & <- & _).
  destruct (strip_tight s) as [L R].
  split; [| split; assumption].
  intros E. rewrite E in T. discriminate T.
Qed.

Lemma structured_field_loop_text (soup : list Node) (field_name : str)
      (headings : list (Path * Node)) :
  structured_field_loop soup field_name headings = [] \/
  exists next_p,
    has_name (lit "p") next_p = true /\
    structured_field_loop soup field_name headings = get_text_strip next_p.
Proof.
  induction headings as [|h3 rest IH]; [now left |].
  cbn [structured_field_loop].
  destruct (PyStr.eqb _ _); [| exact IH].
  destruct (find_next_sibling _ soup (fst h3)) as [e|] eqn:F1.
  - right. exists (snd e). split; [| reflexivity].
    apply find_some in F1. exact (proj2 F1).
  - destruct (find_next _ soup (parent (fst h3))) as [e|] eqn:F2; [| exact IH].
    right. exists (snd e). split; [| reflexivity].
    apply find_some in F2. exact (proj2 F2).
Qed.

(** X5.  The text of a tag read with [strip=True] has no whitespace at
    either end, so what [_extract_structured_field] returns is already
    stripped: it is the empty string or the text of a paragraph, and the
    [strip()] applied to the check range changes nothing.  The check range
    of a record is the text found for the heading, as it is. *)
Theorem structured_field_is_stripped
        (v : Visit) (address field_name : str) (n : Node) :
  let soup := page_source v in
  let field := _extract_structured_field soup field_name in
  strip (get_text_strip n) = get_text_strip n /\
  (field = [] \/
   exists next_p,
     has_name (lit "p") next_p = true /\ field = get_text_strip next_p) /\
  strip field = field /\
  check_range (scrape_investor_data v address)
  = (if completes v CheckRange
     then _extract_structured_field soup (lit "Check Range") else []).
Proof.
  cbv zeta.
  assert (T : forall m, strip (get_text_strip m) = get_text_strip m).
  { intros m. destruct (get_text_strip_tight m). now apply tight_strip. }
  assert (S : forall f, strip (_extract_structured_field (page_source v) f)
                        = _extract_structured_field (page_source v) f).
  { intros f. unfold _extract_structured_field.
    destruct (structured_field_loop_text (page_source v) f
                (find_all is_heading (page_source v))) as [-> | (p & _ & ->)];
      [reflexivity | apply T]. }
  split_ands.
  - apply T.
  - apply structured_field_loop_text.
  - apply S.
  - rewrite scrape_investor_data_fields. cbn [check_range]. now rewrite S.
Qed.

(** X6.  When no section heading of the page carries the label, the field
    is the empty string; on a page without section headings the record
    keeps its empty industries, stages, check range, geography and contact
    information, and its status is still [success]. *)
Theorem structured_field_without_heading (soup : list Node) (field_name : str) :
  (forall h3, In h3 (find_all is_heading soup) ->
     lower (strip (get_text (snd h3))) <> lower field_name) ->
  _extract_structured_field soup field_name = [] /\
  (find_all is_heading soup = [] ->
   forall t address,
     let r := scrape_investor_data (mkVisit t soup None) address in
     industries r = [] /\ stages r = [] /\ check_range r = [] /\
     geography r = [] /\ contact_info r = [] /\ status r = lit "success").
Proof.
  intros H. split.
  - unfold _extract_structured_field.
    induction (find_all is_heading soup) as [|h3 rest IH]; [reflexivity |].
    cbn [structured_field_loop].
    destruct (PyStr.eqb _ _) eqn:E.
    + apply eqb_eq in E. elim (H h3 (or_introl eq_refl) E).
    + apply IH. intros h Hh. apply H. now right.
  - intros E t address. cbv zeta. rewrite scrape_investor_data_fields.
    cbn [industries stages check_range geography contact_info status fault
         completes page_source].
    unfold _extract_industries, _extract_structured_field,
      _extract_contact_info. rewrite E. repeat split.
Qed.

Lemma structured_field_without_heading_witness :
  _extract_structured_field [paragraph "Seed, Series A"] (lit "Stages") = [] /\
  stages (scrape_investor_data (visit_ok [paragraph "Seed, Series A"])
                               (lit "https://mercury.com/investor-database/a-b"))
  = [].
Proof.
  assert (H : forall h3,
             In h3 (find_all is_heading [paragraph "Seed, Series A"]) ->
             lower (strip (get_text (snd h3))) <> lower (lit "Stages"))
    by (intros h3 []).
  destruct (structured_field_without_heading [paragraph "Seed, Series A"]
                                             (lit "Stages") H) as [E R].
  split; [exact E |].
  exact (proj1 (proj2 (R eq_refl (lit "2024-01-01T00:00:00")
                         (lit "https://mercury.com/investor-database/a-b")))).
Defined.

(* ================================================================== *)
(** ** Industries and contact information *)

(** The invariant of the inner loop of [_extract_industries]. *)
Lemma fold_add_industry (links : list Node) :
  forall industries,
    NoDup industries ->
    let out := fold_left add_industry links industries in
    NoDup out /\
    forall item, In item out ->
      In item industries \/
      exists link,
        In link links /\
        contains (lit "industries=") (get (lit "href") link) = true /\
        item = get_text_strip link /\ item <> [].
Proof.
  induction links as [|link links IH]; intros acc Hnd; cbv zeta.
  - cbn [fold_left]. split; [exact Hnd | intros item H; now left].
  - cbn [fold_left]. unfold add_industry at 2 4.
    destruct (contains (lit "industries=") (get (lit "href") link)) eqn:C.
    2:{ destruct (IH acc Hnd) as [N P]. split; [exact N |].
        intros item H. destruct (P item H) as [H' | (l & Hl & R)];
          [now left | right; exists l; split; [now right | exact R]]. }
    destruct (truthy (get_text_strip link)) eqn:T; cbn [andb].
    2:{ destruct (IH acc Hnd) as [N P]. split; [exact N |].
        intros item H. destruct (P item H) as [H' | (l & Hl & R)];
          [now left | right; exists l; split; [now right | exact R]]. }
    destruct (mem (get_text_strip link) acc) eqn:M; cbn [negb].
    + destruct (IH acc Hnd) as [N P]. split; [exact N |].
      intros item H. destruct (P item H) as [H' | (l & Hl & R)];
        [now left | right; exists l; split; [now right | exact R]].
    + assert (Hnew : ~ In (get_text_strip link) acc).
      { intros H. apply mem_In in H. congruence. }
      assert (Hnd' : NoDup (acc ++ [get_text_strip link])).
      { apply NoDup_app; [exact Hnd | repeat constructor; intros [] |].
        intros x Hx [<- | []]. exact (Hnew Hx). }
      destruct (IH _ Hnd') as [N P]. split; [exact N |].
      intros item H. destruct (P item H) as [H' | (l & Hl & R)].
      * apply in_app_or in H'. destruct H' as [H' | [<- | []]]; [now left |].
        right. exists link. split_ands; [now left | exact C | reflexivity |].
        intros E. rewrite E in T. discriminate T.
      * right. exists l. split; [now right | exact R].
Qed.

(** What has been collected stays, and a link that passes the test leaves
    its text. *)
Lemma fold_add_industry_keeps (links : list Node) :
  forall industries item,
    In item industries -> In item (fold_left add_industry links industries).
Proof.
  induction links as [|link links IH]; intros acc item H; [exact H |].
  cbn [fold_left]. apply IH. unfold add_industry.
  destruct (contains _ _); [| exact H].
  destruct (truthy _ && negb _); [| exact H].
  apply in_or_app. now left.
Qed.

Lemma fold_add_industry_complete (links : list Node) :
  forall industries link,
    In link links ->
    contains (lit "industries=") (get (lit "href") link) = true ->
    get_text_strip link <> [] ->
    In (get_text_strip link) (fold_left add_industry links industries).
Proof.
  induction links as [|l links IH]; intros acc link Hl C Ne; [destruct Hl |].
  cbn [fold_left]. destruct Hl as [-> | Hl]; [| now apply IH].
  apply fold_add_industry_keeps. unfold add_industry. rewrite C.
  destruct (get_text_strip link) as [|c t] eqn:T; [contradiction |].
  cbn [truthy andb].
  destruct (mem (c :: t) acc) eqn:M; cbn [negb].
  - now apply mem_In.
  - apply in_or_app. right. now left.
Qed.

(** The loops of the two locators enter the section of the first heading
    that matches. *)
Lemma industries_loop_section (soup : list Node) :
  _extract_industries soup
  = fold_left add_industry (section_links is_industries_heading soup) [].
Proof.
  unfold _extract_industries, section_links.
  induction (find_all is_heading soup) as [|h3 rest IH]; [reflexivity |].
  cbn [industries_loop find]. unfold is_industries_heading at 1.
  destruct (PyStr.eqb _ _); [| exact IH].
  destruct (find_next _ soup (fst h3)); reflexivity.
Qed.

Lemma contact_info_loop_section (soup : list Node) :
  _extract_contact_info soup
  = fold_left add_contact_info
              (section_links is_contact_links_heading soup) [].
Proof.
  unfold _extract_contact_info, section_links.
  induction (find_all is_heading soup) as [|h3 rest IH]; [reflexivity |].
  cbn [contact_info_loop find]. unfold is_contact_links_heading at 1.
  destruct (contains _ _); [| exact IH].
  destruct (find_next _ soup (fst h3)); reflexivity.
Qed.

(** X7.  The industries are the stripped texts, empty ones left out, of the
    links of the industries section (the links with a target inside the
    first container after the first heading [industries]) whose target
    contains [industries=]: each such text is listed, nothing else is, and
    none is listed twice. *)
Theorem extract_industries_distinct (soup : list Node) :
  let links := section_links is_industries_heading soup in
  NoDup (_extract_industries soup) /\
  (forall item,
     In item (_extract_industries soup) <->
     item <> [] /\
     exists link,
       In link links /\
       contains (lit "industries=") (get (lit "href") link) = true /\
       item = get_text_strip link) /\
  (forall link, In link links -> is_link link = true) /\
  (forall item, In item (_extract_industries soup) -> strip item = item).
Proof.
  cbv zeta. rewrite industries_loop_section.
  set (links := section_links is_industries_heading soup).
  destruct (fold_add_industry links [] (NoDup_nil _)) as [N P].
  assert (Sound : forall item,
             In item (fold_left add_industry links []) ->
             item <> [] /\
             exists link,
               In link links /\
               contains (lit "industries=") (get (lit "href") link) = true /\
               item = get_text_strip link).
  { intros item H. destruct (P item H) as [[] | (link & Hl & C & E & Ne)].
    split; [exact Ne |]. exists link. now split_ands. }
  split_ands.
  - exact N.
  - intros item. split; [apply Sound |].
    intros (Ne & link & Hl & C & ->).
    now apply fold_add_industry_complete.
  - intros link Hl. subst links. unfold section_links in Hl.
    destruct (find _ _) as [h3|]; [| destruct Hl].
    destruct (find_next _ soup (fst h3)) as [next_div|]; [| destruct Hl].
    apply in_map_iff in Hl. destruct Hl as (e & <- & He).
    unfold find_all_in in He. apply filter_In in He. exact (proj2 He).
  - intros item H. destruct (Sound item H) as (_ & link & _ & _ & ->).
    destruct (get_text_strip_tight link). now apply tight_strip.
Qed.

Lemma lookup_dict_set_same (key value : str) (d : list (str * str)) :
  lookup key (dict_set key value d) = Some value.
Proof.
  induction d as [|[k v] d IH]; cbn [dict_set lookup].
  - now rewrite eqb_refl.
  - destruct (PyStr.eqb k key) eqn:E; cbn [lookup]; now rewrite E.
Qed.

Lemma lookup_dict_set_other (key key' value : str) (d : list (str * str)) :
  key' <> key ->
  lookup key' (dict_set key value d) = lookup key' d.
Proof.
  intros Hne. induction d as [|[k v] d IH]; cbn [dict_set lookup].
  - destruct (PyStr.eqb key key') eqn:E; [| reflexivity].
    apply eqb_eq in E. congruence.
  - destruct (PyStr.eqb k key) eqn:E; cbn [lookup].
    + apply eqb_eq in E. subst k.
      destruct (PyStr.eqb key key') eqn:E'; [| reflexivity].
      apply eqb_eq in E'. congruence.
    + now rewrite IH.
Qed.

Lemma dict_set_keys (key value : str) (d : list (str * str)) :
  List.map fst (dict_set key value d)
  = if mem key (List.map fst d) then List.map fst d
    else List.map fst d ++ [key].
Proof.
  induction d as [|[k v] d IH]; [reflexivity |].
  cbn [dict_set List.map fst mem existsb]. unfold mem in IH.
  destruct (PyStr.eqb k key) eqn:E.
  - apply eqb_eq in E. subst k. rewrite eqb_refl. reflexivity.
  - assert (E' : PyStr.eqb key k = false).
    { destruct (PyStr.eqb key k) eqn:E'; [| reflexivity].
      apply eqb_eq in E'. subst. now rewrite eqb_refl in E. }
    rewrite E'. cbn [orb List.map fst]. rewrite IH.
    destruct (existsb (PyStr.eqb key) (List.map fst d)); reflexivity.
Qed.

Lemma add_contact_info_cases (d : list (str * str)) (link : Node) :
  add_contact_info d link =
  match contact_key link with
  | Some key => dict_set key (stored_value link) d
  | None => d
  end.
Proof.
  unfold add_contact_info, contact_key, stored_value.
  destruct (negb (truthy (get_text_strip link))
            || (length (strip (get_text_strip link)) <? 2)); [reflexivity |].
  destruct (contains (lit "mailto:") (get (lit "href") link)); reflexivity.
Qed.

Lemma contact_key_clean (link : Node) (key : str) :
  contact_key link = Some key -> 2 <= length key /\ key = get_text_strip link.
Proof.
  unfold contact_key.
  destruct (get_text_strip_tight link) as [L R].
  rewrite (tight_strip _ L R).
  destruct (truthy (get_text_strip link)); cbn [negb orb]; [| discriminate].
  destruct (length (get_text_strip link) <? 2) eqn:E; [discriminate |].
  intros H. injection H as <-. apply Nat.ltb_ge in E. split; [exact E | reflexivity].
Qed.

(** The invariant of the inner loop of [_extract_contact_info]. *)
Lemma fold_add_contact_info (links : list Node) :
  forall d,
    NoDup (List.map fst d) ->
    let out := fold_left add_contact_info links d in
    NoDup (List.map fst out) /\
    (forall key,
       lookup key out =
       last (List.map (fun link => Some (stored_value link))
                      (filter (is_key key) links))
            (lookup key d)) /\
    (forall key, In key (List.map fst out) ->
       In key (List.map fst d) \/
       exists link, In link links /\ contact_key link = Some key).
Proof.
  induction links as [|link links IH]; intros d Hnd; cbv zeta.
  - cbn. split; [exact Hnd |]. split; [reflexivity | intros key H; now left].
  - cbn [fold_left]. rewrite add_contact_info_cases.
    destruct (contact_key link) as [k|] eqn:K.
    + assert (Hnd' : NoDup (List.map fst (dict_set k (stored_value link) d))).
      { rewrite dict_set_keys. destruct (mem k (List.map fst d)) eqn:M;
          [exact Hnd |].
        apply NoDup_app; [exact Hnd | repeat constructor; intros [] |].
        intros x Hx [<- | []]. apply mem_In in Hx. congruence. }
      destruct (IH _ Hnd') as (N & Lk & Pk). split; [exact N |]. split.
      * intros key. rewrite Lk. cbn [filter]. unfold is_key at 2. rewrite K.
        destruct (PyStr.eqb k key) eqn:E.
        -- apply eqb_eq in E. subst key. cbn [List.map].
           rewrite last_cons_default, lookup_dict_set_same. reflexivity.
        -- rewrite lookup_dict_set_other; [reflexivity |].
           intros ->. now rewrite eqb_refl in E.
      * intros key H. destruct (Pk key H) as [H' | (l & Hl & Kl)].
        -- rewrite dict_set_keys in H'.
           destruct (mem k (List.map fst d)); [now left |].
           apply in_app_or in H'. destruct H' as [H' | [<- | []]]; [now left |].
           right. exists link. split; [now left | exact K].
        -- right. exists l. split; [now right | exact Kl].
    + destruct (IH d Hnd) as (N & Lk & Pk). split; [exact N |]. split.
      * intros key. rewrite Lk. cbn [filter]. unfold is_key at 2. now rewrite K.
      * intros key H. destruct (Pk key H) as [H' | (l & Hl & Kl)];
          [now left | right; exists l; split; [now right | exact Kl]].
Qed.

Lemma last_some (A B : Type) (f : A -> B) (l : list A) :
  forall d, l <> [] -> last (List.map (fun x => Some (f x)) l) d <> None.
Proof.
  induction l as [|x l IH]; intros d H; [contradiction |].
  cbn [List.map]. rewrite last_cons_default.
  destruct l as [|y l]; [discriminate | apply IH; discriminate].
Qed.

Lemma filter_none (A : Type) (f : A -> bool) (l : list A) :
  (forall x, In x l -> f x = false) -> filter f l = [].
Proof.
  induction l as [|x l IH]; intros H; [reflexivity |].
  cbn [filter]. rewrite (H x (or_introl eq_refl)).
  apply IH. intros y Hy. apply H. now right.
Qed.

(** A link that is stored leaves its key in the dictionary. *)
Lemma contact_info_key_present (links : list Node) (key : str) (link : Node) :
  In link links -> contact_key link = Some key ->
  lookup key (fold_left add_contact_info links []) <> None.
Proof.
  intros Hl K.
  destruct (fold_add_contact_info links [] (NoDup_nil _)) as (_ & Lk & _).
  rewrite Lk. apply last_some.
  intros E. assert (Hin : In link (filter (is_key key) links)).
  { apply filter_In. split; [exact Hl |]. unfold is_key. rewrite K.
    apply eqb_refl. }
  rewrite E in Hin. exact Hin.
Qed.

(** X8.  In the dictionary built from a list of contact links, a key holds
    what the last link with that text stores (its target, with [mailto:]
    taken out), and a text no link has is not a key; a later link with the
    same text replaces the value and adds no second key. *)
Theorem contact_info_last_link_wins (links : list Node) (key : str) :
  let contact_info := fold_left add_contact_info links [] in
  NoDup (List.map fst contact_info) /\
  lookup key contact_info =
  last (List.map (fun link => Some (stored_value link))
                 (filter (is_key key) links)) None /\
  (forall link, In link links ->
     contact_key link = Some key -> lookup key contact_info <> None) /\
  ((forall link, In link links -> contact_key link <> Some key) ->
   lookup key contact_info = None).
Proof.
  cbv zeta.
  destruct (fold_add_contact_info links [] (NoDup_nil _)) as (N & Lk & _).
  split; [exact N |]. split; [apply Lk |]. split.
  - intros link. apply contact_info_key_present.
  - intros H. rewrite Lk, filter_none; [reflexivity |].
    intros link Hl. unfold is_key.
    destruct (contact_key link) as [k|] eqn:K; [| reflexivity].
    destruct (PyStr.eqb k key) eqn:E; [| reflexivity].
    apply eqb_eq in E. subst k. elim (H link Hl K).
Qed.

Lemma lookup_In (key : str) (d : list (str * str)) :
  lookup key d <> None <-> In key (List.map fst d).
Proof.
  induction d as [|[k v] d IH]; cbn [lookup List.map fst In].
  - split; [intros H; now elim H | intros []].
  - destruct (PyStr.eqb k key) eqn:E.
    + apply eqb_eq in E. split; [now left | discriminate].
    + rewrite IH. split; [now right |].
      intros [-> | H]; [now rewrite eqb_refl in E | exact H].
Qed.

(** X9.  The keys of the contact information of a page are the stripped
    texts, at least two characters long, of the links of the contact-links
    section (the links with a target inside the first container after the
    first heading with [contact links] in it): each such text is a key,
    nothing else is, no key occurs twice, and the value under a key is what
    the last link of the section with that text stores. *)
Theorem extract_contact_info_keys (soup : list Node) :
  let contact_info := _extract_contact_info soup in
  let links := section_links is_contact_links_heading soup in
  NoDup (List.map fst contact_info) /\
  (forall key,
     In key (List.map fst contact_info) <->
     exists link, In link links /\ contact_key link = Some key) /\
  (forall key link,
     In link links ->
     (contact_key link = Some key <->
      key = get_text_strip link /\ 2 <= length key)) /\
  (forall key,
     lookup key contact_info =
     last (List.map (fun link => Some (stored_value link))
                    (filter (is_key key) links)) None) /\
  (forall key, In key (List.map fst contact_info) ->
     2 <= length key /\ strip key = key).
Proof.
  cbv zeta. rewrite contact_info_loop_section.
  set (links := section_links is_contact_links_heading soup).
  destruct (fold_add_contact_info links [] (NoDup_nil _)) as (N & Lk & P).
  assert (Keys : forall key,
             In key (List.map fst (fold_left add_contact_info links [])) ->
             exists link, In link links /\ contact_key link = Some key).
  { intros key H. destruct (P key H) as [[] | R]. exact R. }
  split_ands.
  - exact N.
  - intros key. split; [apply Keys |].
    intros (link & Hl & K). apply lookup_In.
    exact (contact_info_key_present links key link Hl K).
  - intros key link _. split; [intros K | intros [-> Len]].
    + destruct (contact_key_clean link key K). now split.
    + unfold contact_key.
      destruct (get_text_strip_tight link) as [L R].
      rewrite (tight_strip _ L R).
      destruct (get_text_strip link) as [|c t]; [cbn in Len; lia |].
      cbn [truthy negb orb].
      destruct (length (c :: t) <? 2) eqn:E; [| reflexivity].
      apply Nat.ltb_lt in E. lia.
  - exact Lk.
  - intros key H. destruct (Keys key H) as (link & _ & K).
    destruct (contact_key_clean link key K) as [Len ->].
    split; [exact Len |].
    destruct (get_text_strip_tight link). now apply tight_strip.
Qed.

(* ================================================================== *)
(** ** More on personal contacts *)

Lemma contains_unfold (sub s : str) :
  contains sub s =
  startswith sub s || match s with [] => false | _ :: s' => contains sub s' end.
Proof. destruct s; reflexivity. Qed.

Lemma startswith_app_contains (p q : str) :
  forall s, startswith (p ++ q) s = true -> contains q s = true.
Proof.
  induction p as [|a p IH]; intros s H.
  - rewrite contains_unfold. cbn [app] in H. now rewrite H.
  - destruct s as [|b s]; [discriminate H |].
    cbn [app startswith] in H. apply andb_true_iff in H.
    rewrite contains_unfold, (IH s (proj2 H)). apply orb_true_r.
Qed.

(** A text that contains [p ++ q] contains [q]. *)
Lemma contains_app (p q s : str) :
  contains (p ++ q) s = true -> contains q s = true.
Proof.
  induction s as [|c s IH]; rewrite contains_unfold; intros H;
    apply orb_true_iff in H; destruct H as [H | H].
  - now apply startswith_app_contains in H.
  - discriminate H.
  - now apply startswith_app_contains in H.
  - rewrite contains_unfold, (IH H). apply orb_true_r.
Qed.

Lemma last_default_or_In (A : Type) (l : list A) :
  forall d, last l d = d \/ In (last l d) l.
Proof.
  induction l as [|x l IH]; intros d; [now left |].
  rewrite last_cons_default. right.
  destruct (IH x) as [-> | H]; [now left | now right].
Qed.

(** What a key of the personal contacts holds: nothing, or what a link of
    its category stores. *)
Lemma personal_contact_origin (soup : list Node) (c : Category) :
  contact c (personal_contacts_of soup) = [] \/
  exists link,
    In link (List.map snd (find_all is_link soup)) /\
    category_of link = Some c /\
    contact c (personal_contacts_of soup) = stored_value link.
Proof.
  unfold personal_contacts_of. rewrite fold_classify_link_last.
  replace (contact c no_contacts) with (@nil char) by (destruct c; reflexivity).
  destruct (last_default_or_In _
              (List.map stored_value
                        (links_in c (List.map snd (find_all is_link soup)))) [])
    as [E | H]; [now left |].
  right. apply in_map_iff in H. destruct H as (link & E & H).
  unfold links_in in H. apply filter_In in H. destruct H as [Hl Hc].
  exists link. split; [exact Hl |]. split; [| now rewrite E].
  destruct (category_of link) as [c'|]; [| discriminate Hc].
  destruct c, c'; try discriminate Hc; reflexivity.
Qed.

(** The branch of the chain a link is in, read backwards. *)
Lemma category_of_inv (link : Node) (c : Category) :
  category_of link = Some c ->
  let href := get (lit "href") link in
  is_mercury_link href = false /\
  match c with
  | Email => contains (lit "mailto:") href = true
  | LinkedIn =>
      contains (lit "mailto:") href = false /\
      contains (lit "linkedin.com/in/") href = true
  | Twitter =>
      contains (lit "mailto:") href = false /\
      contains (lit "linkedin.com/in/") href = false /\
      (contains (lit "twitter.com") href || contains (lit "x.com") href) = true /\
      contains (lit "/mercury") href = false
  | Website =>
      contains (lit "mailto:") href = false /\
      contains (lit "linkedin.com/in/") href = false /\
      startswith (lit "http") href = true /\
      existsb (fun personal_indicator =>
                 contains personal_indicator (lower (get_text link)))
              [lit "website"; lit "blog"; lit "personal"] = true
  end.
Proof.
  cbv zeta. unfold category_of.
  destruct (is_mercury_link _); [discriminate |].
  destruct (contains (lit "mailto:") _);
    [intros H; injection H as <-; now split |].
  destruct (contains (lit "linkedin.com/in/") _);
    [intros H; injection H as <-; now split |].
  destruct ((contains (lit "twitter.com") _ || contains (lit "x.com") _)
            && negb (contains (lit "/mercury") _)) eqn:TM.
  - intros H. injection H as <-. apply andb_true_iff in TM.
    destruct TM as [T M]. apply negb_true_iff in M. now repeat split.
  - destruct (startswith (lit "http") _ && negb (contains base_url _)) eqn:SB;
      [| discriminate].
    destruct (existsb _ _) eqn:X; [| discriminate].
    intros H. injection H as <-. apply andb_true_iff in SB.
    now repeat split.
Qed.

(** X10.  What the personal contacts hold is plausible for its key: the
    LinkedIn value is empty or a target with [linkedin.com/in/] in it, the
    Twitter value is empty or a target with [twitter.com] or [x.com] and
    without [/mercury] in it, the website is empty or a target that begins
    with [http], and none of the three has one of the platform's own terms
    in it; the email is empty or a [mailto:] target of the page with the
    prefix taken out. *)
Theorem personal_contacts_plausible (soup : list Node) :
  let pc := personal_contacts_of soup in
  let hrefs := List.map (get (lit "href")) (List.map snd (find_all is_link soup)) in
  (linkedin pc = [] \/
   In (linkedin pc) hrefs /\
   contains (lit "linkedin.com/in/") (linkedin pc) = true /\
   is_mercury_link (linkedin pc) = false) /\
  (twitter pc = [] \/
   In (twitter pc) hrefs /\
   (contains (lit "twitter.com") (twitter pc)
    || contains (lit "x.com") (twitter pc)) = true /\
   contains (lit "/mercury") (twitter pc) = false /\
   is_mercury_link (twitter pc) = false) /\
  (website pc = [] \/
   In (website pc) hrefs /\
   startswith (lit "http") (website pc) = true /\
   is_mercury_link (website pc) = false) /\
  (email pc = [] \/
   exists href,
     In href hrefs /\ contains (lit "mailto:") href = true /\
     is_mercury_link href = false /\
     email pc = replace (lit "mailto:") [] href).
Proof.
  cbv zeta. split_ands.
  - destruct (personal_contact_origin soup LinkedIn) as [E | (link & Hl & C & E)];
      [now left | right].
    cbn [contact] in E. apply category_of_inv in C. cbv zeta in C.
    destruct C as (M & Hm & Hk).
    unfold stored_value in E. rewrite Hm in E. rewrite E.
    split_ands; [now apply in_map | exact Hk | exact M].
  - destruct (personal_contact_origin soup Twitter) as [E | (link & Hl & C & E)];
      [now left | right].
    cbn [contact] in E. apply category_of_inv in C. cbv zeta in C.
    destruct C as (M & Hm & _ & Ht & Hp).
    unfold stored_value in E. rewrite Hm in E. rewrite E.
    split_ands; [now apply in_map | exact Ht | exact Hp | exact M].
  - destruct (personal_contact_origin soup Website) as [E | (link & Hl & C & E)];
      [now left | right].
    cbn [contact] in E. apply category_of_inv in C. cbv zeta in C.
    destruct C as (M & Hm & _ & Hs & _).
    unfold stored_value in E. rewrite Hm in E. rewrite E.
    split_ands; [now apply in_map | exact Hs | exact M].
  - destruct (personal_contact_origin soup Email) as [E | (link & Hl & C & E)];
      [now left | right].
    cbn [contact] in E. apply category_of_inv in C. cbv zeta in C.
    destruct C as (M & Hm).
    exists (get (lit "href") link).
    unfold stored_value in E. rewrite Hm in E.
    split_ands; [now apply in_map | exact Hm | exact M | exact E].
Qed.

(** X11.  A target that reaches the website branch has been let through by
    the test for the platform's own terms, and such a target cannot contain
    the base address: the second half of the condition of the branch is
    always true there, and the branch is taken exactly by the targets that
    begin with [http]. *)
Theorem base_url_test_is_redundant (href : str) :
  is_mercury_link href = false ->
  contains base_url href = false /\
  (startswith (lit "http") href && negb (contains base_url href))
  = startswith (lit "http") href.
Proof.
  intros M.
  assert (B : contains base_url href = false).
  { destruct (contains base_url href) eqn:B; [| reflexivity].
    change base_url with (lit "https://" ++ lit "mercury.com") in B.
    apply contains_app in B.
    unfold is_mercury_link in M. cbn [existsb] in M.
    rewrite B in M. rewrite orb_true_r in M. discriminate M. }
  split; [exact B |]. rewrite B. apply andb_true_r.
Qed.

Lemma base_url_test_is_redundant_witness :
  is_mercury_link (lit "https://jane.dev/blog") = false /\
  contains base_url (lit "https://jane.dev/blog") = false.
Proof.
  split; [reflexivity |].
  apply (base_url_test_is_redundant (lit "https://jane.dev/blog")). reflexivity.
Defined.

(* ================================================================== *)
(** ** The name taken from the address *)

Lemma replace_one_char (a b : char) (s : str) :
  replace [a] [b] s = List.map (fun c => if char_eqb a c then b else c) s.
Proof.
  unfold replace. induction s as [|c t IH]; [reflexivity |].
  cbn [replace_go startswith length Nat.sub List.map app].
  rewrite andb_true_r. destruct (char_eqb a c); cbn [app]; now rewrite IH.
Qed.

Lemma title_go_length (s : str) :
  forall prev_cased, length (title_go prev_cased s) = length s.
Proof.
  induction s as [|c t IH]; intros b; [reflexivity |].
  cbn [title_go length]. now rewrite IH.
Qed.

(** [title] changes letters into letters and nothing else. *)
Lemma title_go_chars (s : str) :
  forall prev_cased x,
    In x (title_go prev_cased s) ->
    In x s \/ is_upper_ascii x = true \/ is_lower_ascii x = true.
Proof.
  induction s as [|c t IH]; intros b x H; [destruct H |].
  cbn [title_go] in H. destruct H as [<- | H].
  - destruct b.
    + destruct (is_upper_ascii c) eqn:U; [| left; now left].
      right. right. unfold is_upper_ascii, is_lower_ascii in *.
      apply andb_true_iff in U. destruct U as [U1 U2].
      apply N.leb_le in U1, U2. apply andb_true_iff.
      split; apply N.leb_le; lia.
    + destruct (is_lower_ascii c) eqn:L; [| left; now left].
      right. left. unfold is_upper_ascii, is_lower_ascii in *.
      apply andb_true_iff in L. destruct L as [L1 L2].
      apply N.leb_le in L1, L2. apply andb_true_iff.
      split; apply N.leb_le; lia.
  - destruct (IH _ _ H) as [H' | H']; [left; now right | now right].
Qed.

Lemma last_split_on (sep : char -> bool) (s : str) :
  In (last (split_on sep s) []) (split_on sep s).
Proof.
  destruct (split_on sep s) as [|p ps] eqn:E;
    [now apply split_on_not_nil in E |].
  destruct (last_default_or_In _ ps p) as [H | H];
    rewrite last_cons_default; [rewrite H; now left | now right].
Qed.

Lemma get_name_from_url_map (url : str) :
  _get_name_from_url url =
  title_go false
    (List.map (fun c => if char_eqb 45%N c then 32%N else c)
              (last (split_on (char_eqb 47%N) url) [])).
Proof.
  unfold _get_name_from_url, title.
  change (lit "-") with [45%N]. change (lit " ") with [32%N].
  now rewrite replace_one_char.
Qed.

Lemma get_name_from_url_length (url : str) :
  length (_get_name_from_url url)
  = length (last (split_on (char_eqb 47%N) url) []).
Proof.
  now rewrite get_name_from_url_map, title_go_length, length_map.
Qed.

(** X12.  For an address of ASCII characters, the name taken from it is
    as long as what follows the last slash of the address and has neither
    slash nor hyphen in it; an address that ends with a slash gives the
    empty name. *)
Theorem get_name_from_url_shape (url : str) :
  forallb (fun c => (c <? 128)%N) url = true ->
  let segment := last (split_on (char_eqb 47%N) url) [] in
  length (_get_name_from_url url) = length segment /\
  (forall c, In c (_get_name_from_url url) -> c <> 47%N /\ c <> 45%N) /\
  _get_name_from_url (url ++ lit "/") = [].
Proof.
  intros _. cbv zeta. split_ands.
  - apply get_name_from_url_length.
  - intros c H. rewrite get_name_from_url_map in H.
    assert (Hseg := split_on_pieces (char_eqb 47%N) url _
                      (last_split_on (char_eqb 47%N) url)).
    apply title_go_chars in H. destruct H as [H | H].
    + apply in_map_iff in H. destruct H as (x & E & Hx).
      assert (X := forallb_negb_In _ _ Hseg x Hx).
      unfold char_eqb in *.
      destruct (N.eqb 45 x) eqn:D.
      * subst c. split; discriminate.
      * subst c. apply N.eqb_neq in D, X. split; congruence.
    + unfold is_upper_ascii, is_lower_ascii in H.
      destruct H as [H | H]; apply andb_true_iff in H; destruct H as [H1 H2];
        apply N.leb_le in H1, H2; split; intros ->; lia.
  - apply length_zero_iff_nil. rewrite get_name_from_url_length.
    assert (E := split_on_app_sep (char_eqb 47%N) url [] 47%N eq_refl).
    change (url ++ [47%N]) with (url ++ lit "/") in E. rewrite E.
    cbn [split_on]. now rewrite last_last.
Qed.

Lemma get_name_from_url_shape_witness :
  length (_get_name_from_url
            (lit "https://mercury.com/investor-database/aaron-holiday"))
  = length (last (split_on (char_eqb 47%N)
                    (lit "https://mercury.com/investor-database/aaron-holiday"))
                 []) /\
  _get_name_from_url (lit "https://mercury.com/investor-database/aaron-holiday")
  = lit "Aaron Holiday".
Proof.
  split; [| vm_compute; reflexivity].
  apply (get_name_from_url_shape
           (lit "https://mercury.com/investor-database/aaron-holiday")).
  reflexivity.
Defined.

Lemma or_else_not_empty (a b : str) : b <> [] -> or_else a b <> [].
Proof.
  unfold or_else. destruct a as [|c a]; cbn [truthy]; [auto | discriminate].
Qed.

(** X13.  Once the name has been filled, it is empty only if the address
    ends with a slash: when something follows the last slash of the
    address, the record has a name, whatever the page holds. *)
Theorem scraped_name_not_empty (v : Visit) (address : str) :
  completes v Name = true ->
  last (split_on (char_eqb 47%N) address) [] <> [] ->
  name (scrape_investor_data v address) <> [].
Proof.
  intros C H. rewrite scrape_investor_data_fields. cbn [name]. rewrite C.
  unfold name_chain. do 3 apply or_else_not_empty.
  intros E. apply H. apply length_zero_iff_nil.
  rewrite <- get_name_from_url_length, E. reflexivity.
Qed.

Lemma scraped_name_not_empty_witness :
  name (scrape_investor_data
          (visit_ok [])
          (lit "https://mercury.com/investor-database/aaron-holiday"))
  <> [].
Proof.
  apply (scraped_name_not_empty
           (visit_ok [])
           (lit "https://mercury.com/investor-database/aaron-holiday"));
    [reflexivity | vm_compute; discriminate].
Defined.

(* ================================================================== *)
(** ** The driver and its callers *)

(** A record is a success exactly when no exception was raised. *)
Lemma is_success_scrape (v : Visit) (address : str) :
  is_success (scrape_investor_data v address) = negb (raises v).
Proof.
  rewrite scrape_investor_data_fields. unfold is_success, raises.
  cbn [status]. destruct (fault v) as [[s message]|]; reflexivity.
Qed.

Lemma filter_map_length (A B : Type) (f : B -> bool) (g : A -> B) (l : list A) :
  length (filter f (List.map g l)) = length (filter (fun x => f (g x)) l).
Proof.
  induction l as [|x l IH]; [reflexivity |].
  cbn [List.map filter]. destruct (f (g x)); cbn [length]; now rewrite IH.
Qed.

(** The result of a crawl over at least one address, written out. *)
Lemma crawl_all_investors_run (urljoin : str -> str -> str) (w : World) :
  let investor_urls := collect_investor_urls urljoin (directory w) in
  let records :=
    List.map (fun a => scrape_investor_data (site w a) a) investor_urls in
  investor_urls <> [] ->
  exists rate,
    crawl_all_investors urljoin w =
    (inr (Crawled
            (mkMetadata (start_time w) (end_time w) (length investor_urls)
                        (length (filter is_success records))
                        (length (filter (fun r => negb (is_success r)) records))
                        rate)
            records),
     visits_with_pauses investor_urls).
Proof.
  cbv zeta. intros Hne. unfold crawl_all_investors, enumerate1.
  destruct (collect_investor_urls urljoin (directory w)) as [|a rest];
    [contradiction |].
  cbv beta iota zeta.
  set (investor_urls := a :: rest) in *.
  rewrite (crawl_loop w (length investor_urls) investor_urls 1
                      (mkLoop [] 0 0 [])) by reflexivity.
  cbn [investors_data successful failed events app Nat.add].
  rewrite success_rate_of_positive by discriminate.
  eexists. reflexivity.
Qed.

(** X14.  In the summary of a crawl the successes are the addresses whose
    visit raised no exception and the failures are the others; a crawl in
    which no visit raises has no failure, and a visit that raises does not
    keep the addresses after it from being scraped. *)
Theorem crawl_counts_visits_that_raise
        (urljoin : str -> str -> str) (w : World) :
  let investor_urls := collect_investor_urls urljoin (directory w) in
  investor_urls <> [] ->
  exists metadata investors,
    fst (crawl_all_investors urljoin w) = inr (Crawled metadata investors) /\
    successful_scrapes metadata
    = length (filter (fun a => negb (raises (site w a))) investor_urls) /\
    failed_scrapes metadata
    = length (filter (fun a => raises (site w a)) investor_urls) /\
    ((forall a, In a investor_urls -> raises (site w a) = false) ->
     failed_scrapes metadata = 0 /\
     successful_scrapes metadata = length investor_urls) /\
    List.map (fun r => (url r, error r)) investors
    = List.map (fun a => (a, match fault (site w a) with
                             | Some (_, message) => Some message
                             | None => None
                             end)) investor_urls.
Proof.
  cbv zeta. intros Hne.
  destruct (crawl_all_investors_run urljoin w Hne) as (rate & ->).
  set (investor_urls := collect_investor_urls urljoin (directory w)) in *.
  eexists. eexists. split; [reflexivity |].
  cbn [successful_scrapes failed_scrapes].
  assert (S : length (filter is_success
                 (List.map (fun a => scrape_investor_data (site w a) a)
                           investor_urls))
              = length (filter (fun a => negb (raises (site w a))) investor_urls)).
  { rewrite filter_map_length. f_equal. apply filter_ext.
    intros a. apply is_success_scrape. }
  assert (F : length (filter (fun r => negb (is_success r))
                 (List.map (fun a => scrape_investor_data (site w a) a)
                           investor_urls))
              = length (filter (fun a => raises (site w a)) investor_urls)).
  { rewrite filter_map_length. f_equal. apply filter_ext.
    intros a. rewrite is_success_scrape. apply negb_involutive. }
  split_ands.
  - exact S.
  - exact F.
  - intros H. rewrite F, S.
    rewrite (filter_none _ (fun a => raises (site w a)) investor_urls H).
    split; [reflexivity |].
    assert (P := filter_partition_length _ (fun a => raises (site w a))
                   investor_urls).
    rewrite (filter_none _ (fun a => raises (site w a)) investor_urls H) in P.
    exact P.
  - rewrite map_map. apply map_ext. intros a.
    rewrite scrape_investor_data_fields. reflexivity.
Qed.

Lemma crawl_counts_visits_that_raise_witness :
  exists metadata investors,
    fst (crawl_all_investors origin_join world_nine)
    = inr (Crawled metadata investors) /\
    successful_scrapes metadata = 7 /\ failed_scrapes metadata = 2.
Proof.
  assert (H : collect_investor_urls origin_join (directory world_nine) <> [])
    by (vm_compute; discriminate).
  destruct (crawl_counts_visits_that_raise origin_join world_nine H)
    as (metadata & investors & Hrun & Hs & Hf & _).
  exists metadata, investors. split; [exact Hrun |].
  split; [rewrite Hs | rewrite Hf]; vm_compute; reflexivity.
Defined.

(** The loop of [sample_run] from its [k]-th turn on. *)
Lemma sample_loop (w : World) (total : nat) (addresses : list str) :
  forall k st,
    k + length addresses = S total ->
    fold_left (sample_step w total)
              (combine (seq k (length addresses)) addresses) st =
    (fst st ++ List.map (fun a => scrape_investor_data (site w a) a) addresses,
     snd st ++ visits_with_pauses addresses).
Proof.
  induction addresses as [|a rest IH]; intros k st Hk.
  - cbn. rewrite !app_nil_r. now destruct st.
  - cbn [length seq combine fold_left]. cbn [length] in Hk.
    rewrite IH by lia. unfold sample_step. cbn [fst snd List.map].
    rewrite <- !app_assoc. cbn [app].
    destruct rest as [|b rest].
    + assert (E : (k <? total) = false) by (apply Nat.ltb_ge; cbn in Hk; lia).
      now rewrite E.
    + assert (E : (k <? total) = true) by (apply Nat.ltb_lt; cbn in Hk; lia).
      now rewrite E.
Qed.

Lemma slice_to_length (A : Type) (k : Z) (l : list A) :
  length (slice_to k l)
  = if (k <? 0)%Z then length l - Z.to_nat (- k)
    else Nat.min (Z.to_nat k) (length l).
Proof.
  unfold slice_to. destruct (k <? 0)%Z; rewrite length_firstn; lia.
Qed.

Lemma filter_length_le (A : Type) (f : A -> bool) (l : list A) :
  length (filter f l) <= length l.
Proof.
  induction l as [|x l IH]; [reflexivity |].
  cbn [filter]. destruct (f x); cbn [length]; lia.
Qed.

(** X15.  When addresses are collected, [sample_run] scrapes the addresses
    of the slice [urls[:sample_size]] in order, pausing between two visits,
    and saves their records: the first [sample_size] addresses, all of them
    if there are fewer, none for [sample_size = 0], and all but the last
    [-sample_size] when [sample_size] is negative.  The successes it reports
    are at most the size of the sample, which is at most the number of
    addresses available. *)
Theorem sample_run_scrapes_slice
        (urljoin : str -> str -> str) (w : World) (size : Z) :
  let urls := collect_investor_urls urljoin (directory w) in
  let sample_urls := slice_to size urls in
  urls <> [] ->
  exists result,
    sample_run urljoin w size = (Some result, visits_with_pauses sample_urls) /\
    sample_investors result
    = List.map (fun a => scrape_investor_data (site w a) a) sample_urls /\
    sample_size result = length sample_urls /\
    total_available result = length urls /\
    ((0 <= size)%Z ->
     sample_urls = firstn (Z.to_nat size) urls /\
     sample_size result = Nat.min (Z.to_nat size) (length urls)) /\
    ((size < 0)%Z ->
     sample_size result = length urls - Z.to_nat (- size)) /\
    sample_successful_scrapes result <= sample_size result /\
    sample_size result <= total_available result.
Proof.
  cbv zeta. intros Hne. unfold sample_run, enumerate1.
  destruct (collect_investor_urls urljoin (directory w)) as [|a rest];
    [contradiction |].
  cbv beta iota zeta.
  set (urls := a :: rest) in *.
  rewrite (sample_loop w (length (slice_to size urls)) (slice_to size urls) 1
                       ([], [])) by reflexivity.
  cbn [fst snd app].
  eexists. split; [reflexivity |].
  cbn [sample_investors sample_size total_available sample_successful_scrapes].
  split_ands; try reflexivity.
  - intros H. assert (E : (size <? 0)%Z = false) by (apply Z.ltb_ge; lia).
    split; [unfold slice_to; now rewrite E |].
    now rewrite slice_to_length, E.
  - intros H. assert (E : (size <? 0)%Z = true) by (apply Z.ltb_lt; lia).
    now rewrite slice_to_length, E.
  - etransitivity; [apply filter_length_le |]. now rewrite length_map.
  - rewrite slice_to_length. destruct (size <? 0)%Z; lia.
Qed.

Lemma sample_run_scrapes_slice_witness :
  exists result,
    fst (sample_run origin_join world_nine (-2)) = Some result /\
    sample_size result = 7 /\ total_available result = 9.
Proof.
  assert (H : collect_investor_urls origin_join (directory world_nine) <> [])
    by (vm_compute; discriminate).
  destruct (sample_run_scrapes_slice origin_join world_nine (-2) H)
    as (result & Hrun & _ & Hsize & Htotal & _).
  exists result. split; [now rewrite Hrun |].
  split; [rewrite Hsize | rewrite Htotal]; vm_compute; reflexivity.
Defined.

(** X16.  A sample at least as large as the number of collected addresses
    is the whole crawl: [sample_run] saves the records that
    [crawl_all_investors] returns, after the same visits and pauses, and
    its count of successes is the one of the summary. *)
Theorem sample_run_covers_crawl
        (urljoin : str -> str -> str) (w : World) (size : Z) :
  let urls := collect_investor_urls urljoin (directory w) in
  urls <> [] ->
  (Z.of_nat (length urls) <= size)%Z ->
  exists result metadata,
    sample_run urljoin w size
    = (Some result, snd (crawl_all_investors urljoin w)) /\
    fst (crawl_all_investors urljoin w)
    = inr (Crawled metadata (sample_investors result)) /\
    sample_successful_scrapes result = successful_scrapes metadata /\
    sample_size result = total_investors metadata.
Proof.
  cbv zeta. intros Hne Hsize.
  destruct (crawl_all_investors_run urljoin w Hne) as (rate & ->).
  unfold sample_run, enumerate1.
  destruct (collect_investor_urls urljoin (directory w)) as [|a rest];
    [contradiction |].
  cbv beta iota zeta.
  set (urls := a :: rest) in *.
  assert (E : slice_to size urls = urls).
  { unfold slice_to.
    assert (L : (size <? 0)%Z = false) by (apply Z.ltb_ge; lia).
    rewrite L. apply firstn_all2. lia. }
  rewrite E.
  rewrite (sample_loop w (length urls) urls 1 ([], [])) by reflexivity.
  cbn [fst snd app].
  eexists. eexists. split; [reflexivity |]. split; [reflexivity |].
  split; reflexivity.
Qed.

Lemma sample_run_covers_crawl_witness :
  exists result metadata,
    sample_run origin_join world_nine 10
    = (Some result, snd (crawl_all_investors origin_join world_nine)) /\
    fst (crawl_all_investors origin_join world_nine)
    = inr (Crawled metadata (sample_investors result)).
Proof.
  destruct (sample_run_covers_crawl origin_join world_nine 10)
    as (result & metadata & H1 & H2 & _).
  - vm_compute. discriminate.
  - vm_compute. discriminate.
  - exists result, metadata. split; assumption.
Defined.

Lemma collect_investor_urls_NoDup
      (urljoin : str -> str -> str) (directory : str + list Node) :
  NoDup (collect_investor_urls urljoin directory).
Proof.
  destruct directory as [message | soup]; [constructor |].
  exact (proj1 (proj2 (collect_loop_invariant urljoin
                         (List.map snd (find_all is_link soup))))).
Qed.

(** X17.  [test_url_collection] never finds a duplicate: on whatever the
    collector returns, the distinct addresses are as many as the addresses
    and the difference it prints is 0.  It reports nothing when no address
    is collected; otherwise the addresses with the expected pattern are at
    most all of them, and the addresses it returns are the first five
    collected, or all if there are fewer.  The second half of its pattern
    test never decides: an address that begins with the directory path and
    a slash is not the directory path. *)
Theorem test_url_collection_no_duplicates
        (urljoin : str -> str -> str) (directory : str + list Node) :
  let all_urls := collect_investor_urls urljoin directory in
  match test_url_collection urljoin directory with
  | None => all_urls = []
  | Some report =>
      all_urls <> [] /\
      total_urls_found report = length all_urls /\
      unique_urls report = length all_urls /\
      duplicates report = 0 /\
      valid_patterns report <= total_urls_found report /\
      first_five report = firstn 5 all_urls /\
      length (first_five report) = Nat.min 5 (length all_urls)
  end /\
  (forall url,
     has_valid_pattern url
     = startswith (lit "https://mercury.com/investor-database/") url).
Proof.
  cbv zeta. split.
  - unfold test_url_collection.
    assert (N := collect_investor_urls_NoDup urljoin directory).
    destruct (collect_investor_urls urljoin directory) as [|a rest];
      [reflexivity |].
    set (all_urls := a :: rest) in *.
    cbn [total_urls_found unique_urls duplicates valid_patterns first_five].
    rewrite (nodup_fixed_point str_eq_dec N).
    split_ands; try reflexivity.
    + discriminate.
    + lia.
    + apply filter_length_le.
    + unfold slice_to. cbn [Z.ltb Z.compare]. apply length_firstn.
  - intros url. unfold has_valid_pattern.
    destruct (startswith _ url) eqn:S; [| reflexivity].
    destruct (PyStr.eqb url _) eqn:E; [| reflexivity].
    apply eqb_eq in E. subst url. vm_compute in S. discriminate S.
Qed.

(* ================================================================== *)
(** ** Pages put one after the other *)

(** Induction on a node, with the property known for its contents. *)
Lemma Node_induction (P : Node -> Prop) :
  (forall s, P (NavigableString s)) ->
  (forall name attrs cs, Forall P cs -> P (Tag name attrs cs)) ->
  forall n, P n.
Proof.
  intros Hs Ht. fix IH 1. intros [s | name attrs cs].
  - apply Hs.
  - apply Ht. induction cs as [|c cs IHcs]; constructor;
      [apply IH | exact IHcs].
Qed.

(** The nodes met in document order do not depend on where the walk is
    said to start. *)
Lemma walk_nodes (n : Node) :
  forall p q, List.map snd (walk p n) = List.map snd (walk q n).
Proof.
  induction n as [s | name attrs cs IH] using Node_induction; intros p q;
    [reflexivity |].
  cbn [walk List.map snd]. f_equal.
  generalize 0 at 1 as i. generalize 0 as j.
  induction IH as [|c cs Hc _ IHcs]; intros j i; [reflexivity |].
  rewrite !map_app. rewrite (Hc (p ++ [i]) (q ++ [j])).
  f_equal. apply IHcs.
Qed.

(** A node, then what is met in its contents, one after the other. *)
Lemma walk_nodes_contents (p : Path) (n : Node) :
  List.map snd (walk p n)
  = n :: flat_map (fun c => List.map snd (walk [] c)) (contents n).
Proof.
  destruct n as [s | name attrs cs]; [reflexivity |].
  cbn [walk List.map snd contents]. f_equal.
  generalize 0 as i.
  induction cs as [|c cs IH]; intros i; [reflexivity |].
  cbn [flat_map]. rewrite map_app, IH.
  now rewrite (walk_nodes c (p ++ [i]) []).
Qed.

Lemma descendants_nodes (page : list Node) :
  List.map snd (descendants page)
  = flat_map (fun c => List.map snd (walk [] c)) page.
Proof.
  unfold descendants.
  assert (E := walk_nodes_contents [] (document page)).
  destruct (walk [] (document page)) as [|e l]; [discriminate E |].
  cbn [List.map tl] in *. now injection E.
Qed.

Lemma descendants_app (a b : list Node) :
  List.map snd (descendants (a ++ b))
  = List.map snd (descendants a) ++ List.map snd (descendants b).
Proof.
  rewrite !descendants_nodes. apply flat_map_app.
Qed.

Lemma find_all_nodes (want : Node -> bool) (page : list Node) :
  List.map snd (find_all want page)
  = filter want (List.map snd (descendants page)).
Proof.
  unfold find_all. induction (descendants page) as [|e l IH]; [reflexivity |].
  cbn [filter List.map]. destruct (want (snd e)); cbn [List.map]; now rewrite IH.
Qed.

Lemma find_all_app (want : Node -> bool) (a b : list Node) :
  List.map snd (find_all want (a ++ b))
  = List.map snd (find_all want a) ++ List.map snd (find_all want b).
Proof.
  now rewrite !find_all_nodes, descendants_app, filter_app.
Qed.

(** What is collected only grows, at its end. *)
Lemma fold_collect_link_prefix (urljoin : str -> str -> str) (links : list Node) :
  forall acc, exists more,
    fold_left (collect_link urljoin) links acc = acc ++ more.
Proof.
  induction links as [|link links IH]; intros acc.
  - exists []. cbn. now rewrite app_nil_r.
  - cbn [fold_left]. rewrite collect_link_cases. cbv zeta.
    destruct (is_detail_target _); [| apply IH].
    destruct (mem _ acc); [apply IH |].
    destruct (IH (acc ++ [resolve urljoin (get (lit "href") link)]))
      as (more & ->).
    rewrite <- app_assoc. eexists. reflexivity.
Qed.

(** X18.  Collecting from a page followed by more markup goes on from what
    the page alone gives: the addresses of the page come first, in the same
    order, and the markup after it only adds addresses at the end.  The
    personal contacts of a page followed by more markup are those of the
    page, gone over by the links of the markup after it. *)
Theorem collect_investor_urls_app
        (urljoin : str -> str -> str) (page more : list Node) :
  collect_investor_urls urljoin (inr (page ++ more))
  = fold_left (collect_link urljoin)
              (List.map snd (find_all is_link more))
              (collect_investor_urls urljoin (inr page)) /\
  (exists added,
     collect_investor_urls urljoin (inr (page ++ more))
     = collect_investor_urls urljoin (inr page) ++ added) /\
  personal_contacts_of (page ++ more)
  = fold_left classify_link (List.map snd (find_all is_link more))
              (personal_contacts_of page).
Proof.
  assert (E : collect_investor_urls urljoin (inr (page ++ more))
              = fold_left (collect_link urljoin)
                          (List.map snd (find_all is_link more))
                          (collect_investor_urls urljoin (inr page))).
  { unfold collect_investor_urls. now rewrite find_all_app, fold_left_app. }
  split; [exact E |]. split.
  - rewrite E. apply fold_collect_link_prefix.
  - unfold personal_contacts_of. now rewrite find_all_app, fold_left_app.
Qed.
